(** * Organize_Files_By_Framework_IntegrateJoplin.py: a shallow embedding

    The script classifies files by keyword fragments found in their names,
    copies each file into one folder per matched framework, writes an audit
    log and a rollback log, and annotates the file in a note service.

    Modelling conventions.
    - A Python [str] is a [string]; the characters of interest are ASCII, and
      [str.lower], [str.strip] act on the ASCII letters and white space.
    - The [FRAMEWORKS] dict is an association list: a Python dict iterates in
      insertion order, and the order is observable in the copies and the logs.
    - The outside world (files, clock, note service, shell, terminal) is a
      record [World] threaded through an exception monad: a computation maps
      a world to an outcome (a value or a raised exception) and the world it
      leaves behind.  What was done before an exception stays done. *)

From Stdlib Require Import Ascii.
From stdpp Require Import base tactics option list strings gmap.

(** ** Python string methods *)

Module Str.

(** [c.lower()] on one ASCII character. *)
Definition lower_char (c : ascii) : ascii :=
  let n := nat_of_ascii c in
  if Nat.leb 65 n && Nat.leb n 90 then ascii_of_nat (n + 32) else c.

(** [s.lower()] *)
Fixpoint lower (s : string) : string :=
  match s with
  | EmptyString => EmptyString
  | String c t => String (lower_char c) (lower t)
  end.

(** [s.startswith(p)] *)
Fixpoint startswith (p s : string) : bool :=
  match p, s with
  | EmptyString, _ => true
  | String _ _, EmptyString => false
  | String a p', String b s' => Ascii.eqb a b && startswith p' s'
  end.

(** [needle in hay] for two strings: substring search. *)
Fixpoint contains (needle hay : string) : bool :=
  startswith needle hay ||
  match hay with
  | EmptyString => false
  | String _ t => contains needle t
  end.

(** [s.endswith(c)] for a one-character suffix. *)
Fixpoint endswith_char (c : ascii) (s : string) : bool :=
  match s with
  | EmptyString => false
  | String a EmptyString => Ascii.eqb a c
  | String _ t => endswith_char c t
  end.

(** [s == c * len(s)]: every character of [s] is [c]. *)
Fixpoint all_char (c : ascii) (s : string) : bool :=
  match s with
  | EmptyString => true
  | String a t => Ascii.eqb a c && all_char c t
  end.

(** [s.rstrip(c)] for a one-character set. *)
Fixpoint rstrip_char (c : ascii) (s : string) : string :=
  match s with
  | EmptyString => EmptyString
  | String a t =>
      match rstrip_char c t with
      | EmptyString => if Ascii.eqb a c then EmptyString else String a EmptyString
      | t' => String a t'
      end
  end.

(** Python's white space among the ASCII characters: tab, line feed,
    vertical tab, form feed, carriage return, the four separators
    0x1c-0x1f and the space. *)
Definition isspace (c : ascii) : bool :=
  let n := nat_of_ascii c in
  (Nat.leb 9 n && Nat.leb n 13) || (Nat.leb 28 n && Nat.leb n 32).

Fixpoint lstrip (s : string) : string :=
  match s with
  | EmptyString => EmptyString
  | String a t => if isspace a then lstrip t else s
  end.

Fixpoint rstrip (s : string) : string :=
  match s with
  | EmptyString => EmptyString
  | String a t =>
      match rstrip t with
      | EmptyString => if isspace a then EmptyString else String a EmptyString
      | t' => String a t'
      end
  end.

(** [s.strip()] *)
Definition strip (s : string) : string := rstrip (lstrip s).

(** [''.join(l)] *)
Fixpoint concat (l : list string) : string :=
  match l with
  | [] => EmptyString
  | s :: l' => s +:+ concat l'
  end.

End Str.

(** ** posixpath *)

Module PosixPath.

Definition sep : ascii := "/"%char.

(** The pair [(p[:i], p[i:])] with [i = p.rfind('/') + 1]. *)
Fixpoint cut (p : string) : string * string :=
  match p with
  | EmptyString => (EmptyString, EmptyString)
  | String c t =>
      let '(h, tl) := cut t in
      match h with
      | EmptyString =>
          if Ascii.eqb c sep then (String c EmptyString, tl)
          else (EmptyString, String c tl)
      | _ => (String c h, tl)
      end
  end.

(** [os.path.basename(p)] *)
Definition basename (p : string) : string := snd (cut p).

(** The head of [os.path.split] and [os.path.dirname]: trailing slashes
    are removed unless the head consists of slashes only. *)
Definition trim_head (head : string) : string :=
  if Str.all_char sep head then head else Str.rstrip_char sep head.

(** [os.path.dirname(p)] *)
Definition dirname (p : string) : string := trim_head (fst (cut p)).

(** [os.path.split(p)] *)
Definition split (p : string) : string * string :=
  (trim_head (fst (cut p)), snd (cut p)).

(** [os.path.join(a, b)] *)
Definition join (a b : string) : string :=
  if Str.startswith "/" b then b
  else if bool_decide (a = EmptyString) || Str.endswith_char sep a then a +:+ b
  else a +:+ "/" +:+ b.

End PosixPath.

(** ** The catalog and the classifier *)

Definition BASE_DIR : string := "/home/dan/Business".
Definition DEST_DIR : string := BASE_DIR +:+ "/Compliance_Frameworks".
Definition LOG_FILE : string := "classification_log.txt".
Definition ROLLBACK_LOG : string := "rollback_log.txt".

Definition FRAMEWORKS : list (string * list string) :=
  [ ("FFIEC", ["ffiec"; "federal financial institutions"]);
    ("NIST",  ["nist"; "cybersecurity framework"]);
    ("ISO",   ["iso 27001"; "international standards organization"]);
    ("FTC",   ["ftc safeguard"; "federal trade commission"]);
    ("GLBA",  ["glba"; "gramm-leach-bliley"]);
    ("CIS",   ["cis controls"; "center for internet security"]) ].

(** [keyword.lower() in file_name.lower()] *)
Definition keyword_hit (file_name keyword : string) : bool :=
  Str.contains (Str.lower keyword) (Str.lower file_name).

(** [any(keyword.lower() in file_name.lower() for keyword in keywords)] *)
Definition any_keyword (file_name : string) (keywords : list string) : bool :=
  existsb (keyword_hit file_name) keywords.

(** The matching loop of [classify_file] over a catalog: every framework one
    of whose keywords hits is appended to [matched_frameworks]. *)
Definition match_catalog (catalog : list (string * list string))
    (file_name : string) : list string :=
  fold_left
    (fun matched '(framework, keywords) =>
       if any_keyword file_name keywords then matched ++ [framework]
       else matched)
    catalog [].

(** [matched_frameworks] as computed for a file name. *)
Definition classify (file_name : string) : list string :=
  match_catalog FRAMEWORKS file_name.

(** Lines 71-77 of [classify_file]: the base name of [file_path] and the
    frameworks it matches. *)
Definition matched_frameworks (file_path : string) : list string :=
  classify (PosixPath.basename file_path).

(** ** The outside world *)

(** What a path names: a regular file with its text, or a directory. *)
Inductive node :=
| File (data : string)
| Dir.

(** The exceptions the script can meet.  All are subclasses of [Exception]. *)
Inductive exn :=
| FileNotFoundError (path : string)
| FileExistsError (path : string)
| IsADirectoryError (path : string)
| NotADirectoryError (path : string)
| SameFileError (src dst : string)
| JoplinError (request : string)
| RecursionError.

(** The calls the script makes to its libraries, in the order it makes them.
    A call is recorded when it is made, whether or not it then succeeds. *)
Inductive call :=
| CallMakedirs (path : string)
| CallCopy2 (src dst : string)
| CallWrite (path text : string)
| CallCreateNote (title body : string)
| CallCreateTag (tag : string)
| CallAddTagToNote (tag : string) (note : nat)
| CallSystem (command : string)
| CallPrint (text : string).

(** The note service: the requests answered so far, the notes, the tags and
    the tag-to-note links it holds. *)
Record Joplin := {
  requests : nat;
  notes : list (string * string);
  tags : list string;
  links : list (string * nat)
}.

(** The world.  [fs] maps absolute paths to nodes (the root directory is
    always there); paths are compared as strings, so one file has one
    absolute name (no symbolic links, no [..]).  [clock n] is the text of the
    [n]-th reading of [datetime.now()]; [joplin_ok n] tells whether the
    [n]-th request to the note service is answered; [walk_yields top] is
    what [os.walk(top)] yields during the run.  [calls] is the trace. *)
Record World := {
  fs : gmap string node;
  cwd : string;
  clock : nat → string;
  ticks : nat;
  joplin_ok : nat → bool;
  joplin : Joplin;
  walk_yields : string → list (string * list string * list string);
  calls : list call
}.

Definition set_fs (f : gmap string node) (w : World) : World :=
  {| fs := f; cwd := cwd w; clock := clock w; ticks := ticks w;
     joplin_ok := joplin_ok w; joplin := joplin w;
     walk_yields := walk_yields w; calls := calls w |}.

Definition set_ticks (n : nat) (w : World) : World :=
  {| fs := fs w; cwd := cwd w; clock := clock w; ticks := n;
     joplin_ok := joplin_ok w; joplin := joplin w;
     walk_yields := walk_yields w; calls := calls w |}.

Definition set_joplin (j : Joplin) (w : World) : World :=
  {| fs := fs w; cwd := cwd w; clock := clock w; ticks := ticks w;
     joplin_ok := joplin_ok w; joplin := j;
     walk_yields := walk_yields w; calls := calls w |}.

Definition set_calls (cs : list call) (w : World) : World :=
  {| fs := fs w; cwd := cwd w; clock := clock w; ticks := ticks w;
     joplin_ok := joplin_ok w; joplin := joplin w;
     walk_yields := walk_yields w; calls := cs |}.

(** ** The exception monad over the world *)

Inductive result (A : Type) :=
| Ok (a : A)
| Raise (e : exn).
Arguments Ok {A} a.
Arguments Raise {A} e.

Definition M (A : Type) : Type := World → result A * World.

Definition ret {A} (a : A) : M A := λ w, (Ok a, w).

Definition raise {A} (e : exn) : M A := λ w, (Raise e, w).

Definition bind {A B} (m : M A) (k : A → M B) : M B :=
  λ w, match m w with
       | (Ok a, w') => k a w'
       | (Raise e, w') => (Raise e, w')
       end.

(** [try: m  except <the exceptions h accepts>: handler] *)
Definition try_except {A} (m : M A) (h : exn → option (M A)) : M A :=
  λ w, match m w with
       | (Ok a, w') => (Ok a, w')
       | (Raise e, w') =>
           match h e with
           | Some handler => handler w'
           | None => (Raise e, w')
           end
       end.

Declare Scope py_scope.
Delimit Scope py_scope with py.
Notation "'let!' x ':=' m 'in' k" := (bind m (λ x, k))
  (at level 10, x name, m at level 100, k at level 200) : py_scope.
Notation "m >> k" := (bind m (λ _, k))
  (at level 80, right associativity) : py_scope.
Open Scope py_scope.

(** [for x in xs: body(x)] *)
Fixpoint for_ {A} (xs : list A) (body : A → M unit) : M unit :=
  match xs with
  | [] => ret tt
  | x :: xs' => body x >> for_ xs' body
  end.

Definition record (c : call) : M unit :=
  λ w, (Ok tt, set_calls (calls w ++ [c]) w).

(** The line feed, which Rocq's string literals cannot escape. *)
Definition nl : string := String "010"%char EmptyString.
Definition cr : ascii := "013"%char.
Definition lf : ascii := "010"%char.

(** ** The operating system, as the script uses it *)

Module OS.

(** [os.path.abspath] for paths in normal form: a relative path is taken
    from the working directory. *)
Definition abspath (w : World) (p : string) : string :=
  PosixPath.join (cwd w) p.

(** The node an absolute path names. *)
Definition node_at (w : World) (key : string) : option node :=
  if bool_decide (key = "/") then Some Dir else fs w !! key.

Definition lookup_path (w : World) (p : string) : option node :=
  node_at w (abspath w p).

(** [os.path.exists(p)] *)
Definition exists_ (p : string) : M bool :=
  λ w, (Ok (match lookup_path w p with Some _ => true | None => false end),
        w).

(** [os.path.isdir(p)] *)
Definition isdir (p : string) : M bool :=
  λ w, (Ok (match lookup_path w p with Some Dir => true | _ => false end),
        w).

(** A new entry can be made at [key] only inside an existing directory. *)
Definition parent_check (key : string) : M unit :=
  λ w, match node_at w (PosixPath.dirname key) with
       | Some Dir => (Ok tt, w)
       | Some (File _) => (Raise (NotADirectoryError key), w)
       | None => (Raise (FileNotFoundError key), w)
       end.

Definition put (key : string) (n : node) : M unit :=
  λ w, (Ok tt, set_fs (<[key := n]> (fs w)) w).

(** [os.mkdir(p)] *)
Definition mkdir (p : string) : M unit :=
  λ w, let key := abspath w p in
       match node_at w key with
       | Some _ => (Raise (FileExistsError p), w)
       | None => (parent_check key >> put key Dir) w
       end.

(** The recursion of [os.makedirs(name)] with [exist_ok=False]; every
    recursive call is on a strictly shorter name, so the length of the
    name is fuel enough. *)
Fixpoint makedirs_rec (fuel : nat) (name : string) : M unit :=
  match fuel with
  | 0 => raise RecursionError
  | S fuel' =>
      let '(head, tail) := PosixPath.split name in
      let '(head, tail) :=
        if bool_decide (tail = EmptyString) then PosixPath.split head
        else (head, tail) in
      if bool_decide (head ≠ EmptyString) && bool_decide (tail ≠ EmptyString)
      then
        let! there := exists_ head in
        if there then mkdir name
        else
          try_except (makedirs_rec fuel' head)
            (λ e, match e with
                  | FileExistsError _ => Some (ret tt)
                  | _ => None
                  end) >>
          if bool_decide (tail = ".") then ret tt else mkdir name
      else mkdir name
  end.

(** [os.makedirs(name)] *)
Definition makedirs (name : string) : M unit :=
  record (CallMakedirs name) >>
  makedirs_rec (S (String.length name)) name.

(** [shutil.copy2(src, dst)]: into [dst], or into [dst/basename(src)] when
    [dst] is a directory; the same file as source and target is refused;
    the source must be a regular file and the target must lie in an
    existing directory.  Only the text is modelled, not the metadata. *)
Definition copy2 (src dst : string) : M unit :=
  record (CallCopy2 src dst) >>
  let! into_dir := isdir dst in
  let dst := if into_dir then PosixPath.join dst (PosixPath.basename src)
             else dst in
  λ w, let skey := abspath w src in
       let dkey := abspath w dst in
       if bool_decide (skey = dkey) then (Raise (SameFileError src dst), w)
       else match node_at w skey with
            | None => (Raise (FileNotFoundError src), w)
            | Some Dir => (Raise (IsADirectoryError src), w)
            | Some (File data) =>
                match node_at w dkey with
                | Some Dir => (Raise (IsADirectoryError dst), w)
                | Some (File _) => put dkey (File data) w
                | None => (parent_check dkey >> put dkey (File data)) w
                end
            end.

(** An open file: the name it was opened under and the absolute path. *)
Record handle := { h_name : string; h_key : string }.

(** [open(p, "a")]: the file is created empty when it is not there. *)
Definition open_append (p : string) : M handle :=
  λ w, let key := abspath w p in
       let h := {| h_name := p; h_key := key |} in
       match node_at w key with
       | Some Dir => (Raise (IsADirectoryError p), w)
       | Some (File _) => (Ok h, w)
       | None => (parent_check key >> put key (File EmptyString) >> ret h) w
       end.

(** [f.write(text)] on a file opened for appending (and its closing). *)
Definition write (h : handle) (text : string) : M unit :=
  record (CallWrite (h_name h) text) >>
  λ w, match fs w !! h_key h with
       | Some (File data) => put (h_key h) (File (data +:+ text)) w
       | _ => (Ok tt, w)
       end.

(** [open(p, "r")] *)
Definition open_read (p : string) : M handle :=
  λ w, let key := abspath w p in
       match node_at w key with
       | Some Dir => (Raise (IsADirectoryError p), w)
       | Some (File _) => (Ok {| h_name := p; h_key := key |}, w)
       | None => (Raise (FileNotFoundError p), w)
       end.

(** Reading in text mode translates "\r\n" and "\r" to "\n". *)
Fixpoint universal_newlines (s : string) : string :=
  match s with
  | EmptyString => EmptyString
  | String c t =>
      if Ascii.eqb c cr then
        match t with
        | String c' t' =>
            if Ascii.eqb c' lf then String lf (universal_newlines t')
            else String lf (universal_newlines t)
        | EmptyString => String lf EmptyString
        end
      else String c (universal_newlines t)
  end.

(** The lines of a text, each with its line feed (the last line may lack
    one). *)
Fixpoint splitlines (s : string) : list string :=
  match s with
  | EmptyString => []
  | String c t =>
      if Ascii.eqb c lf then String c EmptyString :: splitlines t
      else match splitlines t with
           | [] => [String c EmptyString]
           | l :: ls => String c l :: ls
           end
  end.

(** [f.readlines()] *)
Definition readlines (h : handle) : M (list string) :=
  λ w, match fs w !! h_key h with
       | Some (File data) => (Ok (splitlines (universal_newlines data)), w)
       | _ => (Ok [], w)
       end.

(** [os.system(command)]: the command is handed to a shell.  What the
    shell then does to the files lies outside the model; the trace keeps
    the command. *)
Definition system (command : string) : M unit :=
  record (CallSystem command).

(** [os.walk(top)] *)
Definition walk (top : string) : M (list (string * list string * list string)) :=
  λ w, (Ok (walk_yields w top), w).

(** [str(datetime.now())] *)
Definition now : M string :=
  λ w, (Ok (clock w (ticks w)), set_ticks (S (ticks w)) w).

(** [print(text)] *)
Definition print (text : string) : M unit :=
  record (CallPrint text).

End OS.

(** ** The note service (the [joplin] object of the script)

    The service is an outside collaborator: every request is recorded and
    then either answered, with the effect named in the specification, or
    fails with an exception, as [joplin_ok] says for this request. *)

Module JoplinApi.

Definition request (c : call) (name : string) : M unit :=
  record c >>
  λ w, let j := joplin w in
       let n := requests j in
       let j' := {| requests := S n; notes := notes j; tags := tags j;
                    links := links j |} in
       if joplin_ok w n then (Ok tt, set_joplin j' w)
       else (Raise (JoplinError name), set_joplin j' w).

(** [joplin.create_note(title=title, body=body)]; the value is the
    [id] of the note made. *)
Definition create_note (title body : string) : M nat :=
  request (CallCreateNote title body) "create_note" >>
  λ w, let j := joplin w in
       (Ok (length (notes j)),
        set_joplin {| requests := requests j;
                      notes := notes j ++ [(title, body)];
                      tags := tags j; links := links j |} w).

(** [joplin.create_tag(tag)] *)
Definition create_tag (tag : string) : M unit :=
  request (CallCreateTag tag) "create_tag" >>
  λ w, let j := joplin w in
       (Ok tt,
        set_joplin {| requests := requests j; notes := notes j;
                      tags := tags j ++ [tag]; links := links j |} w).

(** [joplin.add_tag_to_note(tag, note_id)] *)
Definition add_tag_to_note (tag : string) (note : nat) : M unit :=
  request (CallAddTagToNote tag note) "add_tag_to_note" >>
  λ w, let j := joplin w in
       (Ok tt,
        set_joplin {| requests := requests j; notes := notes j;
                      tags := tags j; links := links j ++ [(tag, note)] |} w).

End JoplinApi.

(** ** The script *)

(** [ensure_dir(directory)] *)
Definition ensure_dir (directory : string) : M unit :=
  let! there := OS.exists_ directory in
  if negb there then OS.makedirs directory else ret tt.

(** The line [log_action] writes to the audit log. *)
Definition audit_line (now action src dest : string) : string :=
  now +:+ " - " +:+ action +:+ ": " +:+ src +:+ " -> " +:+ dest +:+ nl.

(** The line [log_action] writes to the rollback log. *)
Definition rollback_line (src dest : string) : string :=
  "mv '" +:+ dest +:+ "' '" +:+ src +:+ "'" +:+ nl.

(** [log_action(action, src, dest)] *)
Definition log_action (action src dest : string) : M unit :=
  (let! log := OS.open_append LOG_FILE in
   let! now := OS.now in
   OS.write log (audit_line now action src dest)) >>
  (let! rollback := OS.open_append ROLLBACK_LOG in
   OS.write rollback (rollback_line src dest)).

(** [assign_joplin_tags(file_path, tags)] *)
Definition assign_joplin_tags (file_path : string) (tags : list string) : M unit :=
  let title := PosixPath.basename file_path in
  let content := "File: " +:+ file_path +:+ nl +:+ "Located in: "
                 +:+ PosixPath.dirname file_path in
  let! note := JoplinApi.create_note title content in
  for_ tags (λ tag,
    JoplinApi.create_tag tag >>
    JoplinApi.add_tag_to_note tag note).

(** The path a file is copied to for a framework. *)
Definition dest_folder_of (framework : string) : string :=
  DEST_DIR +:+ "/" +:+ framework.

Definition dest_path_of (framework file_path : string) : string :=
  PosixPath.join (dest_folder_of framework) (PosixPath.basename file_path).

(** The body of the loop over [matched_frameworks] in [classify_file]. *)
Definition copy_to_framework (file_path framework : string) : M unit :=
  let file_name := PosixPath.basename file_path in
  let dest_folder := DEST_DIR +:+ "/" +:+ framework in
  ensure_dir dest_folder >>
  let dest_path := PosixPath.join dest_folder file_name in
  OS.copy2 file_path dest_path >>
  assign_joplin_tags file_path ["framework:" +:+ framework] >>
  log_action "COPY" file_path dest_path.

(** [classify_file(file_path)] *)
Definition classify_file (file_path : string) : M unit :=
  let matched_frameworks := matched_frameworks file_path in
  match matched_frameworks with
  | _ :: _ => for_ matched_frameworks (copy_to_framework file_path)
  | [] =>
      assign_joplin_tags file_path ["status:Unclassified"] >>
      log_action "LEAVE" file_path file_path
  end.

(** [process_files(base_dir)] *)
Definition process_files (base_dir : string) : M unit :=
  let! yields := OS.walk base_dir in
  for_ yields (λ '(root, _, files),
    for_ files (λ file,
      let file_path := PosixPath.join root file in
      classify_file file_path)).

(** [rollback()] *)
Definition rollback : M unit :=
  (let! log := OS.open_read ROLLBACK_LOG in
   let! commands := OS.readlines log in
   for_ (reverse commands) (λ command, OS.system (Str.strip command))) >>
  OS.print "Rollback complete.".

(** [str(e)] for the exceptions of the model. *)
Definition exn_str (e : exn) : string :=
  match e with
  | FileNotFoundError p => "[Errno 2] No such file or directory: '" +:+ p +:+ "'"
  | FileExistsError p => "[Errno 17] File exists: '" +:+ p +:+ "'"
  | IsADirectoryError p => "[Errno 21] Is a directory: '" +:+ p +:+ "'"
  | NotADirectoryError p => "[Errno 20] Not a directory: '" +:+ p +:+ "'"
  | SameFileError s d => "'" +:+ s +:+ "' and '" +:+ d +:+ "' are the same file"
  | JoplinError r => r
  | RecursionError => "maximum recursion depth exceeded"
  end.

Definition TEST_DIR : string := "/home/dan/Business/BanksArchive/SSB_ProjectMgmt".

(** The [if __name__ == "__main__"] block. *)
Definition main : M unit :=
  try_except
    (process_files TEST_DIR >>
     OS.print "File classification complete.")
    (λ e, Some (OS.print ("An error occurred: " +:+ exn_str e))).

(** ** Reading the trace *)

(** The copies asked for, as (source, destination) pairs. *)
Definition copies_of (cs : list call) : list (string * string) :=
  omap (λ c, match c with CallCopy2 s d => Some (s, d) | _ => None end) cs.

(** The texts written to the file opened under [name]. *)
Definition writes_to (name : string) (cs : list call) : list string :=
  omap (λ c, match c with
             | CallWrite p text => if bool_decide (p = name) then Some text else None
             | _ => None
             end) cs.

(** The commands handed to the shell. *)
Definition commands_of (cs : list call) : list string :=
  omap (λ c, match c with CallSystem cmd => Some cmd | _ => None end) cs.

(** The lines printed. *)
Definition prints_of (cs : list call) : list string :=
  omap (λ c, match c with CallPrint t => Some t | _ => None end) cs.

(** The text of the file at [p], empty when there is no such file. *)
Definition text_of (w : World) (p : string) : string :=
  match OS.lookup_path w p with
  | Some (File data) => data
  | _ => EmptyString
  end.

(** ** Worlds to run the script in *)

Definition fresh_joplin : Joplin :=
  {| requests := 0; notes := []; tags := []; links := [] |}.

(** A world with the given files, working directory and note-service
    behaviour; the clock reads [t0], [t00], [t000], ... *)
Definition world_of (files : list (string * node)) (dir : string)
    (ok : nat → bool)
    (yields : list (string * list string * list string)) : World :=
  {| fs := list_to_map files; cwd := dir;
     clock := λ n, "t" +:+ Str.concat (replicate (S n) "0");
     ticks := 0; joplin_ok := ok; joplin := fresh_joplin;
     walk_yields := λ _, yields; calls := [] |}.

(** ** Vocabulary of the specification *)

(** [needle] occurs in [hay] as a run of consecutive characters. *)
Definition substring (needle hay : string) : Prop :=
  ∃ pre post, hay = pre +:+ needle +:+ post.

(** [fragment] occurs in [file_name] up to the case of the letters: some
    run of consecutive characters of [file_name] differs from [fragment]
    in letter case only. *)
Definition ci_substring (fragment file_name : string) : Prop :=
  ∃ pre mid post,
    file_name = pre +:+ mid +:+ post ∧ Str.lower mid = Str.lower fragment.

(** The entries of a catalog whose keywords hit a file name. *)
Definition hits (catalog : list (string * list string)) (file_name : string)
    : list (string * list string) :=
  filter (λ entry, any_keyword file_name entry.2) catalog.

(** A text without a line break (line feed or carriage return). *)
Fixpoint linebreak_free (s : string) : bool :=
  match s with
  | EmptyString => true
  | String c t => negb (Ascii.eqb c lf) && negb (Ascii.eqb c cr) && linebreak_free t
  end.

(** The instruction that undoes an audited action: move [dest] back to
    [src]. *)
Definition inverse (entry : string * string * string) : string :=
  let '(_, src, dest) := entry in
  "mv '" +:+ dest +:+ "' '" +:+ src +:+ "'".


(** The paths [process_files] hands to [classify_file], in order. *)
Definition walked_paths (yields : list (string * list string * list string))
    : list string :=
  '(root, _, files) ← yields; PosixPath.join root <$> files.

(** A computation that only adds entries to the file system: all that was
    there stays, and nothing else in the world changes. *)
Definition adds_entries {A} (m : M A) : Prop :=
  ∀ w r w', m w = (r, w') → ∃ f, w' = set_fs f w ∧ fs w ⊆ f.

(** The requests to the note service among the calls. *)
Definition is_note_call (c : call) : Prop :=
  match c with
  | CallCreateNote _ _ | CallCreateTag _ | CallAddTagToNote _ _ => True
  | _ => False
  end.

(** A computation that only talks to the note service: it adds requests
    to the trace and leaves the files and the working directory alone. *)
Definition note_only {A} (m : M A) : Prop :=
  ∀ w r w', m w = (r, w') →
    ∃ new, calls w' = calls w ++ new ∧ Forall is_note_call new ∧
           cwd w' = cwd w ∧ fs w' = fs w.


Definition rollback_text (entries : list (string * string * string)) : string :=
  Str.concat ((λ entry, inverse entry +:+ nl) <$> entries).

(** The paths of an audited entry hold no line break. *)
Definition plain_entry (entry : string * string * string) : Prop :=
  let '(_, src, dest) := entry in
  linebreak_free src = true ∧ linebreak_free dest = true.

(** An invariant of the world that a computation keeps, however it ends. *)
Definition preserves {A} (I : World → Prop) (m : M A) : Prop :=
  ∀ w r w', I w → m w = (r, w') → I w'.

(** In working directory [dir], the file at the absolute path [key] still
    holds [data], possibly with text appended; and it holds exactly [data]
    when [key] is neither of the two logs. *)
Definition keeps_file (dir key data : string) (w : World) : Prop :=
  cwd w = dir ∧
  (∃ more, fs w !! key = Some (File (data +:+ more))) ∧
  (key ≠ PosixPath.join dir LOG_FILE → key ≠ PosixPath.join dir ROLLBACK_LOG →
   fs w !! key = Some (File data)).

(** ** Example worlds *)

Definition example_dirs : list (string * node) :=
  [ ("/home", Dir); ("/home/dan", Dir); ("/home/dan/Business", Dir);
    ("/run", Dir); ("/data", Dir) ].

(** The script runs in [/run]; [/data] holds one file whose name matches
    two frameworks and one whose name matches none; the note service
    answers every request. *)
Definition example_world : World :=
  world_of (example_dirs ++
            [ ("/data/nist_ffiec.txt", File "two frameworks");
              ("/data/random_notes.txt", File "no framework") ])
           "/run" (λ _, true) [].



(** A world in which the script is run a second time from the directory
    that holds the audit log of the first run. *)
Definition second_run_world : World :=
  world_of (example_dirs ++
            [ ("/run/classification_log.txt", File "earlier run") ])
           "/run" (λ _, true)
           [ ("/run", [], ["classification_log.txt"]) ].

(** The example world with a regular file where the folder of FFIEC should
    be: nothing can be copied into it. *)
Definition blocked_world : World :=
  world_of (example_dirs ++
            [ ("/home/dan/Business/Compliance_Frameworks", Dir);
              ("/home/dan/Business/Compliance_Frameworks/FFIEC", File "not a folder");
              ("/data/nist_ffiec.txt", File "two frameworks") ])
           "/run" (λ _, true) [].

(** The example world with a note service that fails its first request. *)
Definition offline_world : World :=
  world_of (example_dirs ++
            [ ("/data/nist_ffiec.txt", File "two frameworks") ])
           "/run" (λ n, negb (Nat.eqb n 0)) [].

(** A world for the walk of [main]: the directory walked lists two files;
    the first is a dangling link (listed, but there is no file behind it),
    the second is a regular file. *)
Definition walk_world : World :=
  world_of (example_dirs ++
            [ ("/home/dan/Business/BanksArchive", Dir);
              (TEST_DIR, Dir);
              (TEST_DIR +:+ "/ffiec_report.txt", File "report") ])
           "/run" (λ _, true)
           [ (TEST_DIR, [], ["nist_gone.txt"; "ffiec_report.txt"]) ].

(** ** Vocabulary for the further properties *)

(** A name without a slash. *)
Fixpoint slash_free (s : string) : bool :=
  match s with
  | EmptyString => true
  | String c t => negb (Ascii.eqb c PosixPath.sep) && slash_free t
  end.

(** A world whose rollback log cannot be opened: a directory stands at its
    path, beside an audit log left by an earlier run. *)
Definition half_world : World :=
  world_of (example_dirs ++
            [ ("/run/classification_log.txt", File "earlier run");
              ("/run/rollback_log.txt", Dir) ])
           "/run" (λ _, true) [].

(** Since the world [w0], nothing was printed and nothing was handed to the
    shell. *)
Definition quiet_since (w0 w : World) : Prop :=
  ∃ new, calls w = calls w0 ++ new ∧ prints_of new = [] ∧ commands_of new = [].

(** The body of the note [assign_joplin_tags] makes for a file. *)
Definition note_content (file_path : string) : string :=
  "File: " +:+ file_path +:+ nl +:+ "Located in: "
  +:+ PosixPath.dirname file_path.

(** The notes asked for, as (title, body) pairs, and the tags attached to
    notes, as (tag, note) pairs. *)
Definition notes_made (cs : list call) : list (string * string) :=
  omap (λ c, match c with CallCreateNote t b => Some (t, b) | _ => None end) cs.

Definition tags_attached (cs : list call) : list (string * nat) :=
  omap (λ c, match c with CallAddTagToNote t n => Some (t, n) | _ => None end) cs.

(** The requests [assign_joplin_tags] makes for one tag and note. *)
Definition tag_requests (note : nat) (tag : string) : list call :=
  [CallCreateTag tag; CallAddTagToNote tag note].

(** The calls of one pass of the loop of [classify_file], for one matched
    framework: the folder is made if it is missing, the file is copied, the
    note is made and tagged, and the two log lines are written. *)
Definition pass_calls (file_path framework : string) (mk : list call)
    (note : nat) (now : string) : list call :=
  let dest := dest_path_of framework file_path in
  let tag := "framework:" +:+ framework in
  mk ++ [ CallCopy2 file_path dest;
          CallCreateNote (PosixPath.basename file_path) (note_content file_path);
          CallCreateTag tag;
          CallAddTagToNote tag note;
          CallWrite LOG_FILE (audit_line now "COPY" file_path dest);
          CallWrite ROLLBACK_LOG (rollback_line file_path dest) ].

Definition is_pass (file_path framework : string) (pass : list call) : Prop :=
  ∃ mk note now,
    (mk = [] ∨ mk = [CallMakedirs (dest_folder_of framework)]) ∧
    pass = pass_calls file_path framework mk note now.

(** The tags a classification attaches for a file. *)
Definition tags_for (file_path : string) : list string :=
  match matched_frameworks file_path with
  | [] => ["status:Unclassified"]
  | frameworks => (λ fw, "framework:" +:+ fw) <$> frameworks
  end.

(** The number of log lines, and of notes, a classification that returns
    leaves for a file: one per matched framework, one for an unmatched
    file. *)
Definition entries_for (file_path : string) : nat :=
  max 1 (length (matched_frameworks file_path)).

(** A world for a walk that returns: the directory walked holds one file
    that matches two frameworks and one that matches none. *)
Definition tree_world : World :=
  world_of (example_dirs ++
            [ ("/home/dan/Business/BanksArchive", Dir);
              (TEST_DIR, Dir);
              (TEST_DIR +:+ "/nist_ffiec.txt", File "two frameworks");
              (TEST_DIR +:+ "/random_notes.txt", File "no framework") ])
           "/run" (λ _, true)
           [ (TEST_DIR, [], ["nist_ffiec.txt"; "random_notes.txt"]) ].

(** In working directory [dir], the file at the absolute path [key] holds
    [text], possibly followed by more. *)
Definition grows_at (dir key text : string) (w : World) : Prop :=
  cwd w = dir ∧ ∃ more, fs w !! key = Some (File (text +:+ more)).

(** A framework identifier that can name a folder: not empty, no slash. *)
Definition folder_name (framework : string) : Prop :=
  slash_free framework = true ∧ framework ≠ "".

(** Where [shutil.copy2] puts the copy when a directory stands at the
    destination path: inside that directory, under the file's name. *)
Definition inner_path_of (framework file_path : string) : string :=
  PosixPath.join (dest_path_of framework file_path)
                 (PosixPath.basename file_path).

(** The copy of a file for a framework holds [data]. *)
Definition copy_at (w : World) (file_path framework data : string) : Prop :=
  OS.lookup_path w (dest_path_of framework file_path) = Some (File data) ∨
  OS.lookup_path w (inner_path_of framework file_path) = Some (File data).

(** In working directory [dir], the file at the absolute path [key] holds
    exactly [data]. *)
Definition holds_at (dir key data : string) (w : World) : Prop :=
  cwd w = dir ∧ fs w !! key = Some (File data).

(** The actions a classification that returns has audited for a file: one
    COPY per matched framework, or one LEAVE. *)
Definition audited (file_path : string) : list (string * string * string) :=
  match matched_frameworks file_path with
  | [] => [("LEAVE", file_path, file_path)]
  | frameworks =>
      (λ fw, ("COPY", file_path, dest_path_of fw file_path)) <$> frameworks
  end.

(** The example world with the two logs in place, both empty. *)
Definition logged_world : World :=
  world_of (example_dirs ++
            [ ("/run/classification_log.txt", File "");
              ("/run/rollback_log.txt", File "");
              ("/data/nist_ffiec.txt", File "two frameworks") ])
           "/run" (λ _, true) [].

(** * Properties *)

#[local] Arguments String.append : simpl nomatch.

(** ** Strings *)

Section StringFacts.

Implicit Types s t p : string.

Lemma app_empty_r s : s +:+ "" = s.
Proof. induction s; simpl; congruence. Qed.

Lemma app_assoc' s t p : (s +:+ t) +:+ p = s +:+ t +:+ p.
Proof. induction s; simpl; congruence. Qed.

Lemma lower_app s t : Str.lower (s +:+ t) = Str.lower s +:+ Str.lower t.
Proof. induction s; simpl; congruence. Qed.

(** A split of the lowered text comes from a split of the text. *)
Lemma lower_split s : ∀ a b,
  Str.lower s = a +:+ b →
  ∃ s1 s2, s = s1 +:+ s2 ∧ Str.lower s1 = a ∧ Str.lower s2 = b.
Proof.
  induction s as [|c s IH]; intros [|x a] b H; simpl in *.
  - exists "", "". by subst.
  - discriminate.
  - exists "", (String c s). by subst.
  - injection H as Hx H. subst x.
    destruct (IH _ _ H) as (s1 & s2 & -> & <- & <-).
    by exists (String c s1), s2.
Qed.

Lemma startswith_spec p s :
  Str.startswith p s = true ↔ ∃ post, s = p +:+ post.
Proof.
  revert s. induction p as [|a p IH]; intros s; simpl.
  - split; [intros _; by exists s | done].
  - destruct s as [|b s].
    + split; [done | intros [post H]; discriminate].
    + rewrite andb_true_iff, Ascii.eqb_eq, IH. split.
      * intros [-> [post ->]]. by exists post.
      * intros [post H]. injection H as -> ->. eauto.
Qed.

Lemma contains_spec needle hay :
  Str.contains needle hay = true ↔ substring needle hay.
Proof.
  unfold substring. induction hay as [|c hay IH].
  - simpl. rewrite orb_false_r, startswith_spec. split.
    + intros [post H]. by exists "", post.
    + intros ([|??] & post & H); [by exists post | discriminate].
  - change (Str.contains needle (String c hay))
      with (Str.startswith needle (String c hay) || Str.contains needle hay).
    rewrite orb_true_iff, startswith_spec, IH. split.
    + intros [[post H] | (pre & post & ->)].
      * by exists "", post.
      * by exists (String c pre), post.
    + intros ([|x pre] & post & H); simpl in H.
      * left. by exists post.
      * right. injection H as -> ->. by exists pre, post.
Qed.

(** The test of the script is the containment of the specification. *)
Lemma keyword_hit_spec file_name keyword :
  keyword_hit file_name keyword = true ↔ ci_substring keyword file_name.
Proof.
  unfold keyword_hit, ci_substring. rewrite contains_spec. split.
  - intros (pre & post & H).
    apply lower_split in H as (s1 & s23 & -> & <- & H).
    apply lower_split in H as (s2 & s3 & -> & H & <-).
    by exists s1, s2, s3.
  - intros (pre & mid & post & -> & H).
    exists (Str.lower pre), (Str.lower post).
    by rewrite !lower_app, H.
Qed.

End StringFacts.

(** ** The classifier *)

Section Classifier.

Variable file_name : string.

Lemma matching_loop_from catalog : ∀ matched,
  fold_left
    (λ matched '(framework, keywords),
       if any_keyword file_name keywords then matched ++ [framework]
       else matched)
    catalog matched
  = matched ++ (hits catalog file_name).*1.
Proof.
  unfold hits.
  induction catalog as [|[framework keywords] catalog IH]; intros matched.
  - by rewrite app_nil_r.
  - simpl. rewrite IH, filter_cons. simpl.
    destruct (any_keyword file_name keywords); simpl.
    + by rewrite <- app_assoc.
    + done.
Qed.

(** The loop keeps the entries that hit, in the order of the catalog. *)
Lemma match_catalog_hits catalog :
  match_catalog catalog file_name = (hits catalog file_name).*1.
Proof. unfold match_catalog. apply (matching_loop_from catalog []). Qed.

Lemma any_keyword_spec keywords :
  any_keyword file_name keywords = true ↔
  ∃ fragment, fragment ∈ keywords ∧ ci_substring fragment file_name.
Proof.
  unfold any_keyword. induction keywords as [|k keywords IH]; simpl.
  - split; [done | intros (? & H & _); by apply elem_of_nil in H].
  - rewrite orb_true_iff, IH, keyword_hit_spec. split.
    + intros [H | (fragment & Hin & H)].
      * exists k. split; [left | done].
      * exists fragment. split; [by right | done].
    + intros (fragment & Hin & H).
      apply elem_of_cons in Hin as [-> | Hin]; eauto.
Qed.




End Classifier.

Lemma FRAMEWORKS_keys_distinct : NoDup FRAMEWORKS.*1.
Proof. compute_done. Qed.



(** C10.  Classification depends on the base name of the path only: two
    paths with the same base name are matched to the same frameworks,
    whatever their directories. *)
Theorem matched_frameworks_basename_only (path1 path2 : string) :
  PosixPath.basename path1 = PosixPath.basename path2 →
  matched_frameworks path1 = matched_frameworks path2.
Proof. unfold matched_frameworks. by intros ->. Qed.

Lemma matched_frameworks_basename_only_witness :
  matched_frameworks "/home/dan/Business/a/nist_plan.txt"
  = matched_frameworks "/srv/archive/b/c/nist_plan.txt".
Proof.
  apply matched_frameworks_basename_only. reflexivity.
Defined.

(** ** Runs of the monad *)

Section Runs.

Context {A B : Type}.

Lemma bind_inv (m : M A) (k : A → M B) w r w' :
  bind m k w = (r, w') →
  (∃ a w1, m w = (Ok a, w1) ∧ k a w1 = (r, w')) ∨
  (∃ e, m w = (Raise e, w') ∧ r = Raise e).
Proof.
  unfold bind. destruct (m w) as [[a|e] w1]; intros H.
  - left. eauto.
  - right. injection H as <- <-. eauto.
Qed.

Lemma bind_ok (m : M A) (k : A → M B) w a w1 :
  m w = (Ok a, w1) → bind m k w = k a w1.
Proof. unfold bind. by intros ->. Qed.

Lemma bind_raise (m : M A) (k : A → M B) w e w1 :
  m w = (Raise e, w1) → bind m k w = (Raise e, w1).
Proof. unfold bind. by intros ->. Qed.

End Runs.

(** A loop runs its body on the items in turn, and stops at the first item
    whose body raises: the items after it are not touched. *)
Lemma for_app {X} (done rest : list X) (body : X → M unit) w w1 :
  for_ done body w = (Ok tt, w1) →
  for_ (done ++ rest) body w = for_ rest body w1.
Proof.
  revert w. induction done as [|x done IH]; simpl; intros w H.
  - by injection H as ->.
  - apply bind_inv in H as [([] & w2 & Hx & H) | (e & _ & ?)]; [| done].
    rewrite (bind_ok _ _ _ _ _ Hx). by apply IH.
Qed.

Lemma for_raise {X} (done : list X) x (rest : list X) (body : X → M unit)
    w w1 e w2 :
  for_ done body w = (Ok tt, w1) →
  body x w1 = (Raise e, w2) →
  for_ (done ++ x :: rest) body w = (Raise e, w2).
Proof.
  intros Hdone Hx. rewrite (for_app _ _ _ _ _ Hdone). simpl.
  by apply bind_raise.
Qed.

(** ** What the operations do to the file system and to the trace *)

Lemma set_fs_set_fs f g w : set_fs f (set_fs g w) = set_fs f w.
Proof. done. Qed.

Lemma set_fs_same w : set_fs (fs w) w = w.
Proof. by destruct w. Qed.

Section AddsEntries.

Lemma adds_ret {A} (a : A) : adds_entries (ret a).
Proof.
  intros w r w' [= <- <-]. exists (fs w). by rewrite set_fs_same.
Qed.

Lemma adds_raise {A} e : adds_entries (@raise A e).
Proof.
  intros w r w' [= <- <-]. exists (fs w). by rewrite set_fs_same.
Qed.

Lemma adds_pure {A} (g : World → result A) : adds_entries (λ w, (g w, w)).
Proof.
  intros w r w' [= <- <-]. exists (fs w). by rewrite set_fs_same.
Qed.

Lemma adds_bind {A B} (m : M A) (k : A → M B) :
  adds_entries m → (∀ a, adds_entries (k a)) → adds_entries (bind m k).
Proof.
  intros Hm Hk w r w' H.
  apply bind_inv in H as [(a & w1 & H1 & H2) | (e & H1 & ->)].
  - destruct (Hm _ _ _ H1) as (f & -> & Hf).
    destruct (Hk a _ _ _ H2) as (g & -> & Hg).
    exists g. split; [done | by trans f].
  - apply (Hm _ _ _ H1).
Qed.

Lemma adds_try {A} (m : M A) h :
  adds_entries m → (∀ e k, h e = Some k → adds_entries k) →
  adds_entries (try_except m h).
Proof.
  intros Hm Hh w r w'. unfold try_except.
  destruct (m w) as [[a|e] w1] eqn:H1.
  - intros [= <- <-]. apply (Hm _ _ _ H1).
  - destruct (Hm _ _ _ H1) as (f & -> & Hf).
    destruct (h e) as [k|] eqn:He.
    + intros H2. destruct (Hh e k He _ _ _ H2) as (g & -> & Hg).
      exists g. split; [done | by trans f].
    + intros [= <- <-]. eauto.
Qed.

Lemma node_at_None w key : OS.node_at w key = None → fs w !! key = None.
Proof. unfold OS.node_at. by case_bool_decide. Qed.

Lemma adds_put_fresh key n w :
  fs w !! key = None →
  ∀ r w', OS.put key n w = (r, w') → ∃ f, w' = set_fs f w ∧ fs w ⊆ f.
Proof.
  intros Hfresh r w' [= <- <-]. eexists. split; [done |].
  by apply insert_subseteq.
Qed.

Lemma adds_parent_check key : adds_entries (OS.parent_check key).
Proof.
  intros w r w'. unfold OS.parent_check.
  destruct (OS.node_at w _) as [[]|]; intros [= <- <-];
    exists (fs w); by rewrite set_fs_same.
Qed.

(** Making an entry where there is none, after the check of its parent. *)
Lemma adds_checked_put {A} key n (k : M A) w :
  fs w !! key = None → adds_entries k →
  ∀ r w', (OS.parent_check key >> OS.put key n >> k) w = (r, w') →
          ∃ f, w' = set_fs f w ∧ fs w ⊆ f.
Proof.
  intros Hfresh Hk r w' H.
  apply bind_inv in H as [([] & w1 & H1 & H) | (e & H1 & ->)].
  - assert (w1 = w) as ->.
    { revert H1. unfold OS.parent_check.
      by destruct (OS.node_at w _) as [[]|]; intros [= <-]. }
    apply bind_inv in H as [([] & w2 & H2 & H) | (e & H2 & ->)].
    + destruct (adds_put_fresh _ _ _ Hfresh _ _ H2) as (g & -> & Hg).
      destruct (Hk _ _ _ H) as (g' & -> & Hg').
      exists g'. split; [done | by trans g].
    + by apply (adds_put_fresh _ _ _ Hfresh _ _ H2).
  - by apply (adds_parent_check _ _ _ _ H1).
Qed.

Lemma adds_exists p : adds_entries (OS.exists_ p).
Proof. apply adds_pure. Qed.

Lemma adds_isdir p : adds_entries (OS.isdir p).
Proof. apply adds_pure. Qed.

Lemma adds_mkdir p : adds_entries (OS.mkdir p).
Proof.
  intros w r w'. unfold OS.mkdir.
  destruct (OS.node_at w _) eqn:Hn.
  - intros [= <- <-]. exists (fs w). by rewrite set_fs_same.
  - intros H. apply node_at_None in Hn.
    apply (adds_checked_put _ Dir (ret tt) w Hn (adds_ret tt) r w').
    revert H. unfold bind. destruct (OS.parent_check _ w) as [[[]|] ?]; [| done].
    by destruct (OS.put _ _ _) as [[[]|] ?].
Qed.

Lemma adds_makedirs_rec fuel : ∀ name, adds_entries (OS.makedirs_rec fuel name).
Proof.
  induction fuel as [|fuel IH]; intros name; cbn [OS.makedirs_rec].
  - apply adds_raise.
  - destruct (PosixPath.split name) as [head tail].
    destruct (if bool_decide (tail = "") then PosixPath.split head
              else (head, tail)) as [head' tail'].
    destruct (bool_decide (head' ≠ "") && bool_decide (tail' ≠ ""));
      [| apply adds_mkdir].
    apply adds_bind; [apply adds_exists |]. intros [].
    + apply adds_mkdir.
    + apply adds_bind.
      * apply adds_try; [apply IH |].
        intros [] k [= <-]. apply adds_ret.
      * intros _. case_bool_decide; [apply adds_ret | apply adds_mkdir].
Qed.

Lemma adds_open_append p : adds_entries (OS.open_append p).
Proof.
  intros w r w'. unfold OS.open_append.
  destruct (OS.node_at w _) as [[]|] eqn:Hn.
  - intros [= <- <-]. exists (fs w). by rewrite set_fs_same.
  - intros [= <- <-]. exists (fs w). by rewrite set_fs_same.
  - apply node_at_None in Hn. apply adds_checked_put; [done | apply adds_ret].
Qed.

End AddsEntries.

(** The single steps: what each operation leaves in the trace, in the
    working directory and in the file system. *)
Section Steps.

Lemma record_run c w r w' :
  record c w = (r, w') → r = Ok tt ∧ w' = set_calls (calls w ++ [c]) w.
Proof. by intros [= <- <-]. Qed.

Lemma adds_entries_run {A} (m : M A) w r w' :
  adds_entries m → m w = (r, w') →
  calls w' = calls w ∧ cwd w' = cwd w ∧ fs w ⊆ fs w'.
Proof. intros Hm H. by destruct (Hm _ _ _ H) as (f & -> & Hf). Qed.

Lemma makedirs_run name w r w' :
  OS.makedirs name w = (r, w') →
  calls w' = calls w ++ [CallMakedirs name] ∧ cwd w' = cwd w ∧ fs w ⊆ fs w'.
Proof.
  unfold OS.makedirs. intros H.
  apply bind_inv in H as [([] & w1 & H1 & H) | (e & H1 & ->)];
    apply record_run in H1 as [? ->]; [| done].
  by apply adds_entries_run in H; [| apply adds_makedirs_rec].
Qed.

Lemma ensure_dir_run directory w r w' :
  ensure_dir directory w = (r, w') →
  ∃ new, calls w' = calls w ++ new ∧
         (new = [] ∨ new = [CallMakedirs directory]) ∧
         cwd w' = cwd w ∧ fs w ⊆ fs w'.
Proof.
  unfold ensure_dir. intros H.
  apply bind_inv in H as [(there & w1 & H1 & H) | (e & H1 & ->)].
  - injection H1 as <- <-. destruct (negb _).
    + apply makedirs_run in H as (? & ? & ?). eauto 10.
    + injection H as <- <-. exists []. by rewrite app_nil_r; eauto.
  - discriminate.
Qed.

(** [shutil.copy2] is recorded once, and never writes to its source. *)
Lemma copy2_run src dst w r w' :
  OS.copy2 src dst w = (r, w') →
  calls w' = calls w ++ [CallCopy2 src dst] ∧ cwd w' = cwd w ∧
  fs w' !! OS.abspath w src = fs w !! OS.abspath w src.
Proof.
  unfold OS.copy2. intros H.
  apply bind_inv in H as [([] & w1 & H1 & H) | (e & H1 & ->)];
    apply record_run in H1 as [? ->]; [| done].
  apply bind_inv in H as [(into & w2 & H2 & H) | (e & H2 & ->)];
    [| discriminate].
  apply (adds_entries_run _ _ _ _ (adds_isdir dst)) in H2 as Hw2.
  injection H2 as _ <-. clear Hw2. revert H.
  set (w1 := set_calls _ w).
  set (dst' := if into then PosixPath.join dst (PosixPath.basename src)
               else dst).
  change (OS.abspath w src) with (OS.abspath w1 src).
  change (fs w) with (fs w1). change (cwd w) with (cwd w1).
  change (calls w ++ _) with (calls w1). clearbody w1 dst'.
  case_bool_decide as Hsame; [by intros [= <- <-] |].
  assert (∀ n r w', OS.put (OS.abspath w1 dst') n w1 = (r, w') →
            calls w' = calls w1 ∧ cwd w' = cwd w1 ∧
            fs w' !! OS.abspath w1 src = fs w1 !! OS.abspath w1 src) as Hput.
  { intros n r0 w0 [= <- <-]. simpl. by rewrite lookup_insert_ne. }
  destruct (OS.node_at w1 (OS.abspath w1 src)) as [[data|]|];
    try by intros [= <- <-].
  destruct (OS.node_at w1 (OS.abspath w1 dst')) as [[]|].
  - apply Hput.
  - by intros [= <- <-].
  - unfold bind, OS.parent_check.
    destruct (OS.node_at w1 _) as [[]|]; try by intros [= <- <-].
    apply Hput.
Qed.

Lemma now_run w r w' :
  OS.now w = (r, w') →
  r = Ok (clock w (ticks w)) ∧ calls w' = calls w ∧ cwd w' = cwd w ∧
  fs w' = fs w.
Proof. by intros [= <- <-]. Qed.

Lemma open_append_run p w r w' :
  OS.open_append p w = (r, w') →
  calls w' = calls w ∧ cwd w' = cwd w ∧
  (∀ k, k ≠ OS.abspath w p → fs w' !! k = fs w !! k) ∧
  match r with
  | Ok h => h = {| OS.h_name := p; OS.h_key := OS.abspath w p |} ∧
            OS.abspath w p ≠ "/" ∧
            fs w' !! OS.abspath w p = Some (File (text_of w p))
  | Raise _ => fs w' = fs w
  end.
Proof.
  unfold OS.open_append, text_of, OS.lookup_path.
  destruct (OS.node_at w (OS.abspath w p)) as [[data|]|] eqn:Hn.
  - intros [= <- <-]. repeat split; try done.
    + intros Hroot. revert Hn. unfold OS.node_at. by rewrite Hroot.
    + revert Hn. unfold OS.node_at. by case_bool_decide.
  - by intros [= <- <-].
  - unfold bind, OS.parent_check.
    destruct (OS.node_at w (PosixPath.dirname _)) as [[]|];
      try by intros [= <- <-].
    simpl. intros [= <- <-]. simpl. repeat split.
    + intros k Hk. by rewrite lookup_insert_ne.
    + intros Hroot. revert Hn. unfold OS.node_at. by rewrite Hroot.
    + by rewrite lookup_insert_eq.
Qed.

Lemma write_run h text w r w' :
  OS.write h text w = (r, w') →
  r = Ok tt ∧ calls w' = calls w ++ [CallWrite (OS.h_name h) text] ∧
  cwd w' = cwd w ∧
  (∀ k, k ≠ OS.h_key h → fs w' !! k = fs w !! k) ∧
  (∀ data, fs w !! OS.h_key h = Some (File data) →
           fs w' !! OS.h_key h = Some (File (data +:+ text))).
Proof.
  unfold OS.write. intros H.
  apply bind_inv in H as [([] & w1 & H1 & H) | (e & H1 & ->)];
    apply record_run in H1 as [? ->]; [| done].
  revert H. simpl. destruct (fs w !! OS.h_key h) as [[data|]|] eqn:Hn.
  - intros [= <- <-]. simpl. repeat split; try done.
    + intros k Hk. by rewrite lookup_insert_ne.
    + intros ? [= <-]. by rewrite lookup_insert_eq.
  - by intros [= <- <-].
  - by intros [= <- <-].
Qed.

End Steps.

(** ** The two logs *)

Section Logs.

Lemma abspath_cwd w w' p : cwd w' = cwd w → OS.abspath w' p = OS.abspath w p.
Proof. unfold OS.abspath. by intros ->. Qed.

Lemma text_of_file w p data :
  OS.abspath w p ≠ "/" → fs w !! OS.abspath w p = Some (File data) →
  text_of w p = data.
Proof.
  intros Hroot Hf. unfold text_of, OS.lookup_path, OS.node_at.
  rewrite bool_decide_eq_false_2 by done. by rewrite Hf.
Qed.

Lemma text_of_same w w' p :
  cwd w' = cwd w → fs w' !! OS.abspath w p = fs w !! OS.abspath w p →
  text_of w' p = text_of w p.
Proof.
  intros Hc Hf. unfold text_of, OS.lookup_path, OS.node_at.
  rewrite (abspath_cwd _ _ _ Hc). case_bool_decide; [done | by rewrite Hf].
Qed.

(** The two logs are two files. *)
Lemma log_files_distinct w :
  OS.abspath w LOG_FILE ≠ OS.abspath w ROLLBACK_LOG.
Proof.
  unfold OS.abspath, PosixPath.join.
  change (Str.startswith "/" LOG_FILE) with false.
  change (Str.startswith "/" ROLLBACK_LOG) with false.
  cbv iota. destruct (_ || _); intros H.
  - by apply (inj (String.app _)) in H.
  - by apply (inj (String.app _)) in H.
Qed.

(** One appending transaction: open the file, compute the text, write. *)
Lemma append_run p (mt : M string) (text : World → string) w r w' :
  (∀ w0, ∃ w1, mt w0 = (Ok (text w0), w1) ∧ calls w1 = calls w0 ∧
               cwd w1 = cwd w0 ∧ fs w1 = fs w0) →
  (∀ f, text (set_fs f w) = text w) →
  (let! h := OS.open_append p in let! t := mt in OS.write h t) w = (r, w') →
  cwd w' = cwd w ∧
  (∀ k, k ≠ OS.abspath w p → fs w' !! k = fs w !! k) ∧
  match r with
  | Ok _ =>
      calls w' = calls w ++ [CallWrite p (text w)] ∧
      OS.abspath w p ≠ "/" ∧
      fs w' !! OS.abspath w p = Some (File (text_of w p +:+ text w))
  | Raise _ => calls w' = calls w ∧ fs w' = fs w
  end.
Proof.
  intros Hmt Htext H.
  apply bind_inv in H as [(h & w1 & H1 & H) | (e & H1 & ->)].
  - destruct (adds_open_append _ _ _ _ H1) as (f & Hw1 & _).
    apply open_append_run in H1 as (Hc1 & Hd1 & Hk1 & -> & Hroot & Hf1).
    destruct (Hmt w1) as (w2 & H2 & Hc2 & Hd2 & Hf2).
    rewrite (bind_ok _ _ _ _ _ H2) in H.
    apply write_run in H as (-> & Hc & Hd & Hk & Hf). simpl in *.
    assert (text w1 = text w) as Ht by (by rewrite Hw1).
    rewrite Ht in Hc, Hf.
    split; [congruence |]. split; [| split; [| split; [done |]]].
    + intros k Hne. rewrite Hk, Hf2 by done. by apply Hk1.
    + congruence.
    + apply Hf. by rewrite Hf2.
  - apply open_append_run in H1 as (Hc1 & Hd1 & Hk1 & Hf1). by rewrite Hf1.
Qed.

Lemma log_action_run action src dest w r w' :
  log_action action src dest w = (r, w') →
  let a := audit_line (clock w (ticks w)) action src dest in
  let b := rollback_line src dest in
  cwd w' = cwd w ∧
  (∀ k, k ≠ OS.abspath w LOG_FILE → k ≠ OS.abspath w ROLLBACK_LOG →
        fs w' !! k = fs w !! k) ∧
  (∀ k data, fs w !! k = Some (File data) →
             ∃ more, fs w' !! k = Some (File (data +:+ more))) ∧
  match r with
  | Ok _ =>
      calls w' = calls w ++ [CallWrite LOG_FILE a; CallWrite ROLLBACK_LOG b] ∧
      text_of w' LOG_FILE = text_of w LOG_FILE +:+ a ∧
      text_of w' ROLLBACK_LOG = text_of w ROLLBACK_LOG +:+ b
  | Raise _ =>
      calls w' = calls w ∨ calls w' = calls w ++ [CallWrite LOG_FILE a]
  end.
Proof.
  intros H a b. unfold log_action in H.
  pose proof (log_files_distinct w) as Hne.
  assert (∀ w k data, fs w !! k = Some (File data) →
            ∃ more, fs w !! k = Some (File (data +:+ more))) as Hsame.
  { intros w0 k data ->. exists "". by rewrite app_empty_r. }
  apply bind_inv in H as [([] & w1 & H1 & H) | (e & H1 & ->)];
    change (bind (OS.open_append LOG_FILE) _)
      with (let! h := OS.open_append LOG_FILE in
            let! t := (let! now := OS.now in
                       ret (audit_line now action src dest)) in
            OS.write h t) in H1.
  - apply (append_run _ _ (λ w, audit_line (clock w (ticks w)) action src dest))
      in H1 as (Hd1 & Hk1 & Hc1 & Hroot1 & Hf1); [| | done].
    2:{ intros w0. eexists. by split. }
    assert (∀ k data, fs w !! k = Some (File data) →
              ∃ more, fs w1 !! k = Some (File (data +:+ more))) as Hgrow1.
    { intros k data Hk.
      destruct (decide (k = OS.abspath w LOG_FILE)) as [-> | Hk'].
      - rewrite Hf1, (text_of_file _ _ data) by done. eauto.
      - rewrite Hk1 by done. eauto. }
    change (bind (OS.open_append ROLLBACK_LOG) _)
      with (let! h := OS.open_append ROLLBACK_LOG in
            let! t := ret b in OS.write h t) in H.
    apply (append_run _ _ (λ _, b)) in H as (Hd & Hk & Hr); [| | done].
    2:{ intros w0. eexists. by split. }
    rewrite (abspath_cwd _ _ _ Hd1) in Hk, Hr.
    split; [congruence |]. split.
    { intros k Hk1' Hk2'. rewrite Hk, Hk1 by done. done. }
    destruct r as [[]|e].
    + destruct Hr as (Hc & Hroot & Hf).
      rewrite (text_of_same w w1) in Hf by (by rewrite ?Hk1). split.
      { intros k data Hk0.
        destruct (decide (k = OS.abspath w ROLLBACK_LOG)) as [-> | Hk'].
        - rewrite Hf, (text_of_file _ _ data) by done. eauto.
        - rewrite Hk by done. by apply Hgrow1. }
      split; [by rewrite Hc, Hc1, <- app_assoc |]. split.
      * apply text_of_file.
        -- by rewrite (abspath_cwd w w') by congruence.
        -- rewrite (abspath_cwd w w') by congruence. by rewrite Hk.
      * apply text_of_file.
        -- by rewrite (abspath_cwd w w') by congruence.
        -- by rewrite (abspath_cwd w w') by congruence.
    + destruct Hr as (Hc & Hf). split.
      { intros k data Hk0. rewrite Hf. by apply Hgrow1. }
      right. by rewrite Hc, Hc1.
  - apply (append_run _ _ (λ w, audit_line (clock w (ticks w)) action src dest))
      in H1 as (Hd1 & Hk1 & Hc1 & Hf1); [| | done].
    2:{ intros w0. eexists. by split. }
    split; [done |]. split; [by intros; apply Hk1 |]. split.
    + intros k data Hk0. rewrite Hf1. eauto.
    + by left.
Qed.

End Logs.

(** ** The note service leaves the files alone *)

Section Notes.

Lemma request_run c name : is_note_call c → note_only (JoplinApi.request c name).
Proof.
  intros Hc w r w' H. unfold JoplinApi.request in H.
  apply bind_inv in H as [([] & w1 & H1 & H) | (e & H1 & ->)];
    apply record_run in H1 as [? ->]; [| done].
  exists [c]. revert H. simpl. destruct (joplin_ok w _); intros [= <- <-];
    by repeat constructor.
Qed.

Lemma note_only_then {A} (m : M unit) (g : World → A) (set : World → Joplin) :
  note_only m → note_only (m >> λ w, (Ok (g w), set_joplin (set w) w)).
Proof.
  intros Hm w r w' H.
  apply bind_inv in H as [([] & w1 & H1 & H) | (e & H1 & ->)].
  - injection H as <- <-. apply (Hm _ _ _ H1).
  - apply (Hm _ _ _ H1).
Qed.

Lemma create_note_only title body : note_only (JoplinApi.create_note title body).
Proof. apply note_only_then. by apply request_run. Qed.

Lemma create_tag_run tag : note_only (JoplinApi.create_tag tag).
Proof. apply note_only_then. by apply request_run. Qed.

Lemma add_tag_to_note_only tag note :
  note_only (JoplinApi.add_tag_to_note tag note).
Proof. apply note_only_then. by apply request_run. Qed.

Lemma note_only_bind {A B} (m : M A) (k : A → M B) :
  note_only m → (∀ a, note_only (k a)) → note_only (bind m k).
Proof.
  intros Hm Hk w r w' H.
  apply bind_inv in H as [(a & w1 & H1 & H) | (e & H1 & ->)].
  - destruct (Hm _ _ _ H1) as (n1 & Hc1 & Hn1 & Hd1 & Hf1).
    destruct (Hk a _ _ _ H) as (n2 & Hc2 & Hn2 & Hd2 & Hf2).
    exists (n1 ++ n2). rewrite Hc2, Hc1, <- app_assoc.
    split; [done |]. split; [by apply Forall_app |]. split; congruence.
  - apply (Hm _ _ _ H1).
Qed.

Lemma note_only_for {X} (xs : list X) (body : X → M unit) :
  (∀ x, note_only (body x)) → note_only (for_ xs body).
Proof.
  intros Hbody. induction xs as [|x xs IH]; simpl.
  - intros w r w' [= <- <-]. exists []. by rewrite app_nil_r.
  - apply note_only_bind; [apply Hbody | done].
Qed.

Lemma assign_joplin_tags_run file_path tags :
  note_only (assign_joplin_tags file_path tags).
Proof.
  unfold assign_joplin_tags. apply note_only_bind; [apply create_note_only |].
  intros note. apply note_only_for. intros tag.
  apply note_only_bind; [apply create_tag_run |].
  intros _. apply add_tag_to_note_only.
Qed.

Lemma note_calls_silent new :
  Forall is_note_call new →
  copies_of new = [] ∧ (∀ p, writes_to p new = []) ∧ commands_of new = [].
Proof.
  induction 1 as [|c new Hc _ (IH1 & IH2 & IH3)]; [done |].
  by destruct c.
Qed.

End Notes.

(** ** Traces of the copying loop *)

Section Traces.

Lemma copies_of_app a b : copies_of (a ++ b) = copies_of a ++ copies_of b.
Proof. apply omap_app. Qed.

Lemma writes_to_app p a b : writes_to p (a ++ b) = writes_to p a ++ writes_to p b.
Proof. apply omap_app. Qed.

Lemma commands_of_app a b : commands_of (a ++ b) = commands_of a ++ commands_of b.
Proof. apply omap_app. Qed.

Lemma writes_to_log_pair a b :
  writes_to LOG_FILE [CallWrite LOG_FILE a; CallWrite ROLLBACK_LOG b] = [a] ∧
  writes_to ROLLBACK_LOG [CallWrite LOG_FILE a; CallWrite ROLLBACK_LOG b] = [b].
Proof. done. Qed.

(** A pass of the loop body that returns has asked for one copy and has
    written one line to each log. *)
Lemma copy_to_framework_ok file_path framework w w' :
  copy_to_framework file_path framework w = (Ok tt, w') →
  ∃ new now,
    calls w' = calls w ++ new ∧
    copies_of new = [(file_path, dest_path_of framework file_path)] ∧
    writes_to LOG_FILE new =
      [audit_line now "COPY" file_path (dest_path_of framework file_path)] ∧
    writes_to ROLLBACK_LOG new =
      [rollback_line file_path (dest_path_of framework file_path)].
Proof.
  unfold copy_to_framework. intros H.
  apply bind_inv in H as [([] & w1 & H1 & H) | (e & _ & ?)]; [| done].
  apply bind_inv in H as [([] & w2 & H2 & H) | (e & _ & ?)]; [| done].
  apply bind_inv in H as [([] & w3 & H3 & H) | (e & _ & ?)]; [| done].
  apply ensure_dir_run in H1 as (n1 & Hc1 & Hn1 & _).
  apply copy2_run in H2 as (Hc2 & _).
  apply assign_joplin_tags_run in H3 as (n3 & Hc3 & Hn3 & _).
  apply note_calls_silent in Hn3 as (Hn3c & Hn3w & _).
  apply log_action_run in H as (_ & _ & _ & Hc & _).
  eexists _, (clock w3 (ticks w3)). split.
  { rewrite Hc, Hc3, Hc2, Hc1, <- !app_assoc. done. }
  rewrite !copies_of_app, !writes_to_app, Hn3c, !Hn3w.
  destruct Hn1 as [-> | ->]; done.
Qed.

Lemma copy_loop_ok file_path : ∀ frameworks w w',
  for_ frameworks (copy_to_framework file_path) w = (Ok tt, w') →
  ∃ new,
    calls w' = calls w ++ new ∧
    copies_of new = (λ fw, (file_path, dest_path_of fw file_path)) <$> frameworks ∧
    Forall2 (λ fw line, ∃ now,
               line = audit_line now "COPY" file_path (dest_path_of fw file_path))
            frameworks (writes_to LOG_FILE new) ∧
    writes_to ROLLBACK_LOG new =
      (λ fw, rollback_line file_path (dest_path_of fw file_path)) <$> frameworks.
Proof.
  induction frameworks as [|fw fws IH]; simpl; intros w w' H.
  - injection H as <-. exists []. rewrite app_nil_r. repeat split. constructor.
  - apply bind_inv in H as [([] & w1 & H1 & H) | (e & _ & ?)]; [| done].
    apply copy_to_framework_ok in H1 as (n1 & now & Hc1 & Hcp1 & Hw1 & Hr1).
    apply IH in H as (n2 & Hc2 & Hcp2 & Hw2 & Hr2).
    exists (n1 ++ n2). rewrite Hc2, Hc1, <- app_assoc.
    rewrite copies_of_app, !writes_to_app, Hcp1, Hcp2, Hw1, Hr1, Hr2.
    repeat split. constructor; eauto.
Qed.

End Traces.

(** ** The logging operation *)

Lemma rollback_line_inverse action src dest :
  rollback_line src dest = inverse (action, src, dest) +:+ nl.
Proof. unfold rollback_line, inverse. by rewrite !app_assoc'. Qed.




(** ** Fan-out of one file *)

Lemma classify_file_matched file_path w :
  matched_frameworks file_path ≠ [] →
  classify_file file_path w
  = for_ (matched_frameworks file_path) (copy_to_framework file_path) w.
Proof. unfold classify_file. by destruct (matched_frameworks _). Qed.

Lemma classify_file_unmatched file_path w :
  matched_frameworks file_path = [] →
  classify_file file_path w
  = (assign_joplin_tags file_path ["status:Unclassified"] >>
     log_action "LEAVE" file_path file_path) w.
Proof. unfold classify_file. by intros ->. Qed.

Lemma matched_frameworks_hits file_path :
  matched_frameworks file_path
  = (hits FRAMEWORKS (PosixPath.basename file_path)).*1.
Proof. apply match_catalog_hits. Qed.





(** ** Rollback *)

Section Lines.

Implicit Types body rest : string.

Lemma linebreak_free_app body rest :
  linebreak_free (body +:+ rest) = linebreak_free body && linebreak_free rest.
Proof.
  induction body as [|c body IH]; simpl; [done |].
  rewrite IH. by rewrite !andb_assoc.
Qed.

(** Reading leaves a text without carriage return as it is, up to the next
    line break. *)
Lemma universal_newlines_plain body rest :
  linebreak_free body = true →
  OS.universal_newlines (body +:+ nl +:+ rest)
  = body +:+ nl +:+ OS.universal_newlines rest.
Proof.
  induction body as [|c body IH]; simpl; [done |].
  intros [[_ Hcr%negb_true_iff]%andb_true_iff Hbody]%andb_true_iff.
  rewrite Hcr. simpl in IH. by rewrite IH.
Qed.

(** A text without line break, closed by a line feed, is one line. *)
Lemma splitlines_plain body rest :
  linebreak_free body = true →
  OS.splitlines (body +:+ nl +:+ rest) = (body +:+ nl) :: OS.splitlines rest.
Proof.
  induction body as [|c body IH]; simpl; [done |].
  intros [[Hlf%negb_true_iff _]%andb_true_iff Hbody]%andb_true_iff.
  rewrite Hlf. simpl in IH. by rewrite IH.
Qed.

Lemma rstrip_keeps body c :
  Str.isspace c = false →
  Str.rstrip (body +:+ String c nl) = body +:+ String c "".
Proof.
  intros Hc. induction body as [|a body IH]; simpl.
  - by rewrite Hc.
  - simpl in IH. rewrite IH. by destruct body.
Qed.

Lemma inverse_plain entry :
  plain_entry entry → linebreak_free (inverse entry) = true.
Proof.
  destruct entry as [[action src] dest]. intros [Hsrc Hdest].
  unfold inverse. rewrite !linebreak_free_app, Hsrc, Hdest. done.
Qed.

(** Stripping the line read back gives the instruction. *)
Lemma strip_inverse entry : Str.strip (inverse entry +:+ nl) = inverse entry.
Proof.
  destruct entry as [[action src] dest]. unfold inverse, Str.strip.
  change (Str.lstrip (("mv '" +:+ dest +:+ "' '" +:+ src +:+ "'") +:+ nl))
    with (("mv '" +:+ dest +:+ "' '" +:+ src +:+ "'") +:+ nl).
  replace (("mv '" +:+ dest +:+ "' '" +:+ src +:+ "'") +:+ nl)
    with (("mv '" +:+ dest +:+ "' '" +:+ src) +:+ String "'" nl)
    by (by rewrite !app_assoc').
  rewrite rstrip_keeps by done. by rewrite !app_assoc'.
Qed.

(** The rollback log of entries without line breaks reads back as one line
    per entry. *)
Lemma lines_of_rollback_text entries :
  Forall plain_entry entries →
  OS.splitlines (OS.universal_newlines (rollback_text entries))
  = (λ entry, inverse entry +:+ nl) <$> entries.
Proof.
  induction 1 as [|entry entries Hplain _ IH]; [done |].
  change (rollback_text (entry :: entries))
    with ((inverse entry +:+ nl) +:+ rollback_text entries).
  apply inverse_plain in Hplain.
  rewrite app_assoc', universal_newlines_plain, splitlines_plain by done.
  by rewrite IH.
Qed.

End Lines.

Lemma system_loop_run (f : string → string) : ∀ commands w r w',
  for_ commands (λ command, OS.system (f command)) w = (r, w') →
  r = Ok tt ∧ calls w' = calls w ++ (CallSystem ∘ f <$> commands).
Proof.
  induction commands as [|c cs IH]; simpl; intros w r w' H.
  - injection H as <- <-. by rewrite app_nil_r.
  - apply bind_inv in H as [([] & w1 & H1 & H) | (e & H1 & ->)];
      apply record_run in H1 as [? ->]; [| done].
    apply IH in H as [-> ->]. simpl. by rewrite <- app_assoc.
Qed.






(** ** The source file stays *)

Section Frame.

Lemma preserves_bind {A B} (I : World → Prop) (m : M A) (k : A → M B) :
  preserves I m → (∀ a, preserves I (k a)) → preserves I (bind m k).
Proof.
  intros Hm Hk w r w' HI H.
  apply bind_inv in H as [(a & w1 & H1 & H) | (e & H1 & ->)].
  - eapply Hk; [| done]. by eapply Hm.
  - by eapply Hm.
Qed.

Lemma preserves_for {X} (I : World → Prop) (xs : list X) (body : X → M unit) :
  (∀ x, preserves I (body x)) → preserves I (for_ xs body).
Proof.
  intros Hbody. induction xs as [|x xs IH]; simpl.
  - by intros w r w' HI [= <- <-].
  - by apply preserves_bind.
Qed.

Variables dir key data : string.

Lemma keeps_file_ensure_dir directory :
  preserves (keeps_file dir key data) (ensure_dir directory).
Proof.
  intros w r w' (Hd & [more Hmore] & Hsame) H.
  apply ensure_dir_run in H as (new & _ & _ & Hd' & Hsub).
  split; [congruence |]. split.
  - exists more. by eapply lookup_weaken.
  - intros H1 H2. eapply lookup_weaken; [by apply Hsame | done].
Qed.

Lemma keeps_file_notes {A} (m : M A) :
  note_only m → preserves (keeps_file dir key data) m.
Proof.
  intros Hm w r w' (Hd & Hmore & Hsame) H.
  destruct (Hm _ _ _ H) as (new & _ & _ & Hd' & Hf).
  unfold keeps_file. rewrite Hf. split; [congruence | done].
Qed.

Lemma keeps_file_log_action action src dest :
  preserves (keeps_file dir key data) (log_action action src dest).
Proof.
  intros w r w' (Hd & [more Hmore] & Hsame) H.
  apply log_action_run in H as (Hd' & Hother & Hgrow & _).
  split; [congruence |]. split.
  - destruct (Hgrow _ _ Hmore) as [more' Hmore'].
    exists (more +:+ more'). by rewrite <- app_assoc'.
  - intros H1 H2. rewrite Hother; [by apply Hsame | |];
      unfold OS.abspath; by rewrite Hd.
Qed.

End Frame.

(** [shutil.copy2] does not touch the file it copies from. *)
Lemma keeps_file_copy2 dir file_path data dst :
  preserves (keeps_file dir (PosixPath.join dir file_path) data)
            (OS.copy2 file_path dst).
Proof.
  intros w r w' (Hd & Hmore & Hsame) H.
  apply copy2_run in H as (_ & Hd' & Hf).
  unfold OS.abspath in Hf. rewrite Hd in Hf.
  unfold keeps_file. rewrite Hf. split; [congruence | done].
Qed.


Lemma lookup_path_file w p data :
  OS.lookup_path w p = Some (File data) ↔
  OS.abspath w p ≠ "/" ∧ fs w !! OS.abspath w p = Some (File data).
Proof.
  unfold OS.lookup_path, OS.node_at. case_bool_decide as Hroot.
  - split; [done | by intros [? _]].
  - split; [by intros ? | by intros [_ ?]].
Qed.




(** ** Exceptions are not handled inside a classification *)

Lemma matched_not_nil file_path (done : list string) fw rest :
  matched_frameworks file_path = done ++ fw :: rest →
  matched_frameworks file_path ≠ [].
Proof. intros ->. by destruct done. Qed.

(** C7, as stated, fails: with a regular file in the place of the FFIEC
    folder the copy for FFIEC raises, and the copy for NIST, which would
    have succeeded, is never asked for. *)
Lemma failed_copy_stops_fanout_counterexample :
  let p := "/data/nist_ffiec.txt" in
  let run := classify_file p blocked_world in
  matched_frameworks p = ["FFIEC"; "NIST"] ∧
  run.1 = Raise (NotADirectoryError
                   "/home/dan/Business/Compliance_Frameworks/FFIEC/nist_ffiec.txt") ∧
  copies_of (calls run.2) = [(p, dest_path_of "FFIEC" p)] ∧
  (copy_to_framework p "NIST" blocked_world).1 = Ok tt.
Proof. vm_compute. repeat split. Qed.

(** C7, amended.  Within the fan-out of one file the copies are made one
    after the other with no handling of errors in between: when the making
    of the destination folder or the copy fails for one framework, the
    exception leaves the classification at once; the copies made for the
    frameworks before it stay asked for and done, and no copy is asked for
    any of the remaining matched frameworks. *)
Theorem failed_copy_stops_fanout file_path done fw rest w w1 e w2 :
  matched_frameworks file_path = done ++ fw :: rest →
  for_ done (copy_to_framework file_path) w = (Ok tt, w1) →
  (ensure_dir (dest_folder_of fw) >>
   OS.copy2 file_path (dest_path_of fw file_path)) w1 = (Raise e, w2) →
  classify_file file_path w = (Raise e, w2) ∧
  ∃ new,
    calls w2 = calls w ++ new ∧
    (copies_of new
       = (λ f, (file_path, dest_path_of f file_path)) <$> done ∨
     copies_of new
       = (λ f, (file_path, dest_path_of f file_path)) <$> (done ++ [fw])).
Proof.
  intros Hm Hdone Hfail. split.
  - rewrite classify_file_matched by eauto using matched_not_nil.
    rewrite Hm. apply (for_raise _ _ _ _ _ _ _ _ Hdone).
    unfold copy_to_framework.
    apply bind_inv in Hfail as [([] & w1a & H1 & H2) | (e' & H1 & [= ->])].
    + rewrite (bind_ok _ _ _ _ _ H1). by apply bind_raise.
    + by apply bind_raise.
  - apply copy_loop_ok in Hdone as (n1 & Hc1 & Hcp1 & _).
    apply bind_inv in Hfail as [([] & w1a & H1 & H2) | (e' & H1 & [= ->])].
    + apply ensure_dir_run in H1 as (n & Hc & Hn & _).
      apply copy2_run in H2 as (Hc2 & _).
      eexists. split; [by rewrite Hc2, Hc, Hc1, <- !app_assoc |].
      right. rewrite !copies_of_app, Hcp1, fmap_app.
      by destruct Hn as [-> | ->].
    + apply ensure_dir_run in H1 as (n & Hc & Hn & _).
      eexists. split; [by rewrite Hc, Hc1, <- !app_assoc |].
      left. rewrite !copies_of_app, Hcp1.
      destruct Hn as [-> | ->]; simpl; by rewrite app_nil_r.
Qed.

Lemma failed_copy_stops_fanout_witness :
  classify_file "/data/nist_ffiec.txt" blocked_world
  = (Raise (NotADirectoryError
              "/home/dan/Business/Compliance_Frameworks/FFIEC/nist_ffiec.txt"),
     (classify_file "/data/nist_ffiec.txt" blocked_world).2) ∧
  ∃ new,
    calls (classify_file "/data/nist_ffiec.txt" blocked_world).2
    = calls blocked_world ++ new ∧
    (copies_of new
       = (λ f, ("/data/nist_ffiec.txt", dest_path_of f "/data/nist_ffiec.txt"))
         <$> [] ∨
     copies_of new
       = (λ f, ("/data/nist_ffiec.txt", dest_path_of f "/data/nist_ffiec.txt"))
         <$> ([] ++ ["FFIEC"])).
Proof.
  apply (failed_copy_stops_fanout "/data/nist_ffiec.txt" [] "FFIEC" ["NIST"]
           blocked_world blocked_world).
  - vm_compute. reflexivity.
  - reflexivity.
  - vm_compute. reflexivity.
Defined.

(** C9, as stated, fails: when the note service fails its first request,
    the classification raises; the copy made for FFIEC stays, but no line
    is written to either log, and nothing is copied for NIST. *)
Lemma failed_note_stops_fanout_counterexample :
  let p := "/data/nist_ffiec.txt" in
  let run := classify_file p offline_world in
  matched_frameworks p = ["FFIEC"; "NIST"] ∧
  run.1 = Raise (JoplinError "create_note") ∧
  OS.lookup_path run.2 (dest_path_of "FFIEC" p) = Some (File "two frameworks") ∧
  OS.lookup_path run.2 (dest_path_of "NIST" p) = None ∧
  copies_of (calls run.2) = [(p, dest_path_of "FFIEC" p)] ∧
  text_of run.2 LOG_FILE = "" ∧
  text_of run.2 ROLLBACK_LOG = "".
Proof. vm_compute. repeat split. Qed.

(** C9, amended.  A failure of the note service while a file is classified
    is not handled: the exception leaves the classification at once.  The
    copy just made for the current framework is not rolled back (the files
    are as the copy left them), but no audit or rollback line is written
    for it, and no copy is asked for any of the remaining matched
    frameworks. *)
Theorem failed_note_stops_fanout file_path done fw rest w w1 w2 e w3 :
  matched_frameworks file_path = done ++ fw :: rest →
  for_ done (copy_to_framework file_path) w = (Ok tt, w1) →
  (ensure_dir (dest_folder_of fw) >>
   OS.copy2 file_path (dest_path_of fw file_path)) w1 = (Ok tt, w2) →
  assign_joplin_tags file_path ["framework:" +:+ fw] w2 = (Raise e, w3) →
  classify_file file_path w = (Raise e, w3) ∧
  fs w3 = fs w2 ∧
  ∃ new,
    calls w3 = calls w ++ new ∧
    copies_of new
      = (λ f, (file_path, dest_path_of f file_path)) <$> (done ++ [fw]) ∧
    length (writes_to LOG_FILE new) = length done ∧
    writes_to ROLLBACK_LOG new
      = (λ f, rollback_line file_path (dest_path_of f file_path)) <$> done.
Proof.
  intros Hm Hdone Hcopy Hnote. split; [| split].
  - rewrite classify_file_matched by eauto using matched_not_nil.
    rewrite Hm. apply (for_raise _ _ _ _ _ _ _ _ Hdone).
    unfold copy_to_framework.
    apply bind_inv in Hcopy as [([] & w1a & H1 & H2) | (e' & _ & ?)]; [| done].
    rewrite (bind_ok _ _ _ _ _ H1), (bind_ok _ _ _ _ _ H2).
    by apply bind_raise.
  - by apply assign_joplin_tags_run in Hnote as (_ & _ & _ & _ & ?).
  - apply copy_loop_ok in Hdone as (n1 & Hc1 & Hcp1 & Hw1 & Hr1).
    apply bind_inv in Hcopy as [([] & w1a & H1 & H2) | (e' & _ & ?)]; [| done].
    apply ensure_dir_run in H1 as (n & Hc & Hn & _).
    apply copy2_run in H2 as (Hc2 & _).
    apply assign_joplin_tags_run in Hnote as (n3 & Hc3 & Hn3 & _).
    apply note_calls_silent in Hn3 as (Hcp3 & Hw3 & _).
    apply Forall2_length in Hw1.
    eexists. split; [by rewrite Hc3, Hc2, Hc, Hc1, <- !app_assoc |].
    rewrite !copies_of_app, !writes_to_app, Hcp1, Hcp3, !Hw3, Hr1, fmap_app.
    rewrite !length_app, <- Hw1.
    destruct Hn as [-> | ->]; simpl; rewrite ?app_nil_r; (split; [done |]);
      split; [lia | done | lia | done].
Qed.

Lemma failed_note_stops_fanout_witness :
  let p := "/data/nist_ffiec.txt" in
  let w2 := (ensure_dir (dest_folder_of "FFIEC") >>
             OS.copy2 p (dest_path_of "FFIEC" p)) offline_world in
  let w3 := (classify_file p offline_world).2 in
  classify_file p offline_world = (Raise (JoplinError "create_note"), w3) ∧
  fs w3 = fs w2.2 ∧
  ∃ new,
    calls w3 = calls offline_world ++ new ∧
    copies_of new = (λ f, (p, dest_path_of f p)) <$> ([] ++ ["FFIEC"]) ∧
    length (writes_to LOG_FILE new) = @length string [] ∧
    writes_to ROLLBACK_LOG new
      = (λ f, rollback_line p (dest_path_of f p)) <$> [].
Proof.
  apply (failed_note_stops_fanout "/data/nist_ffiec.txt" [] "FFIEC" ["NIST"]
           offline_world offline_world).
  - vm_compute. reflexivity.
  - reflexivity.
  - vm_compute. reflexivity.
  - vm_compute. reflexivity.
Defined.

(** ** The walk *)

Lemma for_fmap {X Y} (f : X → Y) (body : Y → M unit) : ∀ xs w,
  for_ (f <$> xs) body w = for_ xs (λ x, body (f x)) w.
Proof.
  induction xs as [|x xs IH]; intros w; [done |].
  simpl. unfold bind. destruct (body (f x) w) as [[[]|e] w1]; [apply IH | done].
Qed.

Lemma for_app_bind {X} (body : X → M unit) (ys : list X) : ∀ xs w,
  for_ (xs ++ ys) body w = (for_ xs body >> for_ ys body) w.
Proof.
  induction xs as [|x xs IH]; intros w; [done |].
  simpl. unfold bind.
  destruct (body x w) as [[[]|e] w1]; [| done]. by rewrite IH.
Qed.

(** The two nested loops of [process_files] classify the walked paths one
    after the other. *)
Lemma process_files_walked base_dir w :
  process_files base_dir w
  = for_ (walked_paths (walk_yields w base_dir)) classify_file w.
Proof.
  unfold process_files, OS.walk. unfold bind at 1.
  generalize (walk_yields w base_dir). intros yields. revert w.
  induction yields as [|[[root dirs] files] yields IH]; intros w; [done |].
  change (walked_paths ((root, dirs, files) :: yields))
    with ((PosixPath.join root <$> files) ++ walked_paths yields).
  rewrite for_app_bind. simpl. unfold bind.
  rewrite for_fmap.
  destruct (for_ files _ w) as [[[]|e] w1]; [apply IH | done].
Qed.

(** C8, as stated, fails: the first file of the walk is a dangling link, its
    copy raises, the error is printed once, and the walk is over: the second
    file, which could have been classified, is never looked at. *)
Lemma failed_file_stops_walk_counterexample :
  let second := TEST_DIR +:+ "/ffiec_report.txt" in
  let run := main walk_world in
  walked_paths (walk_yields walk_world TEST_DIR)
  = [TEST_DIR +:+ "/nist_gone.txt"; second] ∧
  run.1 = Ok tt ∧
  prints_of (calls run.2)
  = ["An error occurred: [Errno 2] No such file or directory: '"
     +:+ TEST_DIR +:+ "/nist_gone.txt'"] ∧
  copies_of (calls run.2)
  = [(TEST_DIR +:+ "/nist_gone.txt", dest_path_of "NIST" "nist_gone.txt")] ∧
  OS.lookup_path run.2 (dest_path_of "FFIEC" second) = None ∧
  (classify_file second walk_world).1 = Ok tt.
Proof. vm_compute. repeat split. Qed.

(** C8, amended.  During a directory walk an exception raised while one file
    is processed is not handled per file: it ends the walk.  It is caught at
    the top level and reported once, and the files that the walk had still
    to yield are not processed; what was done for the files before stays
    done. *)
Theorem failed_file_stops_walk w done file rest w1 e w2 :
  walked_paths (walk_yields w TEST_DIR) = done ++ file :: rest →
  for_ done classify_file w = (Ok tt, w1) →
  classify_file file w1 = (Raise e, w2) →
  process_files TEST_DIR w = (Raise e, w2) ∧
  main w = (Ok tt,
            set_calls (calls w2 ++
                       [CallPrint ("An error occurred: " +:+ exn_str e)]) w2).
Proof.
  intros Hwalk Hdone Hfail.
  assert (process_files TEST_DIR w = (Raise e, w2)) as Hrun.
  { rewrite process_files_walked, Hwalk. by eapply for_raise. }
  split; [done |].
  unfold main, try_except.
  by rewrite (bind_raise _ _ _ _ _ Hrun).
Qed.

Lemma failed_file_stops_walk_witness :
  let w2 := (classify_file (TEST_DIR +:+ "/nist_gone.txt") walk_world).2 in
  let e := FileNotFoundError (TEST_DIR +:+ "/nist_gone.txt") in
  process_files TEST_DIR walk_world = (Raise e, w2) ∧
  main walk_world
  = (Ok tt,
     set_calls (calls w2 ++
                [CallPrint ("An error occurred: " +:+ exn_str e)]) w2).
Proof.
  apply (failed_file_stops_walk walk_world []
           (TEST_DIR +:+ "/nist_gone.txt") [TEST_DIR +:+ "/ffiec_report.txt"]
           walk_world).
  - vm_compute. reflexivity.
  - reflexivity.
  - vm_compute. reflexivity.
Defined.

(** ** The recursion of [os.makedirs] ends *)

Section MakedirsFuel.

Lemma string_length_app (s t : string) :
  String.length (s +:+ t) = String.length s + String.length t.
Proof. induction s; simpl; congruence. Qed.

Lemma cut_app p : (PosixPath.cut p).1 +:+ (PosixPath.cut p).2 = p.
Proof.
  induction p as [|c p IH]; [done |].
  simpl. destruct (PosixPath.cut p) as [[|a h] tl]; simpl in *.
  - destruct (Ascii.eqb c PosixPath.sep); simpl; by rewrite IH.
  - by rewrite IH.
Qed.

Lemma rstrip_char_length c s :
  String.length (Str.rstrip_char c s) ≤ String.length s.
Proof.
  induction s as [|a s IH]; simpl; [done |].
  destruct (Str.rstrip_char c s); [destruct (Ascii.eqb a c) |]; simpl in *; lia.
Qed.

Lemma split_lengths name :
  String.length (PosixPath.split name).1 + String.length (PosixPath.split name).2
  ≤ String.length name.
Proof.
  unfold PosixPath.split, PosixPath.trim_head. simpl.
  assert (String.length name
          = String.length (PosixPath.cut name).1
            + String.length (PosixPath.cut name).2) as ->
    by (by rewrite <- string_length_app, cut_app).
  destruct (Str.all_char _ _); [done |].
  pose proof (rstrip_char_length PosixPath.sep (PosixPath.cut name).1). lia.
Qed.

Lemma mkdir_no_recursion_error p w r w' :
  OS.mkdir p w = (r, w') → r ≠ Raise RecursionError.
Proof.
  unfold OS.mkdir, bind, OS.parent_check, OS.put.
  destruct (OS.node_at w (OS.abspath w p)); [by intros [= <- <-] |].
  destruct (OS.node_at w (PosixPath.dirname _)) as [[]|]; by intros [= <- <-].
Qed.

(** With more fuel than the name is long, the recursion never runs out. *)
Lemma makedirs_rec_fuel : ∀ fuel name w r w',
  String.length name < fuel →
  OS.makedirs_rec fuel name w = (r, w') → r ≠ Raise RecursionError.
Proof.
  induction fuel as [|fuel IH]; intros name w r w' Hlen; [lia |].
  cbn [OS.makedirs_rec].
  pose proof (split_lengths name) as Hs.
  destruct (PosixPath.split name) as [head tail]. simpl in Hs.
  assert (∀ head' tail',
            (if bool_decide (tail = "") then PosixPath.split head
             else (head, tail)) = (head', tail') →
            String.length head' + String.length tail' ≤ String.length name)
    as Hs'.
  { intros head' tail'. case_bool_decide.
    - intros Heq. pose proof (split_lengths head) as Hh.
      rewrite Heq in Hh. simpl in Hh. lia.
    - intros [= <- <-]. done. }
  destruct (if bool_decide (tail = "") then PosixPath.split head
            else (head, tail)) as [head' tail'].
  specialize (Hs' _ _ eq_refl).
  destruct (bool_decide (head' ≠ "")); simpl;
    [| apply mkdir_no_recursion_error].
  case_bool_decide as Htail; simpl; [| apply mkdir_no_recursion_error].
  unfold bind at 1. simpl.
  destruct (OS.lookup_path w head'); [apply mkdir_no_recursion_error |].
  assert (String.length head' < fuel) as Hfuel.
  { destruct tail'; [done | simpl in Hs'; lia]. }
  unfold bind, try_except.
  destruct (OS.makedirs_rec fuel head' w) as [[[]|e] w1] eqn:Hrec.
  - case_bool_decide; [by intros [= <- <-] | apply mkdir_no_recursion_error].
  - apply IH in Hrec; [| done].
    destruct e; try (by intros [= <- <-]).
    simpl. case_bool_decide; [by intros [= <- <-] | apply mkdir_no_recursion_error].
Qed.

(** [os.makedirs] never ends for lack of fuel. *)
Lemma makedirs_fuel_suffices name w r w' :
  OS.makedirs name w = (r, w') → r ≠ Raise RecursionError.
Proof.
  unfold OS.makedirs. intros H.
  apply bind_inv in H as [([] & w1 & H1 & H) | (e & H1 & ->)].
  - eapply makedirs_rec_fuel; [| done]. lia.
  - by apply record_run in H1 as [? _].
Qed.

End MakedirsFuel.

(** * Further properties of the script *)

(** ** The result of the matching loop *)

(** X1.  The frameworks matched for a path are catalog keys in catalog
    order, each at most once: a file that holds several keywords of one
    framework is still matched to it once. *)
Theorem matched_frameworks_sublist (file_path : string) :
  matched_frameworks file_path `sublist_of` FRAMEWORKS.*1 ∧
  NoDup (matched_frameworks file_path) ∧
  length (matched_frameworks file_path) ≤ length FRAMEWORKS.
Proof.
  assert (matched_frameworks file_path `sublist_of` FRAMEWORKS.*1) as Hsub.
  { rewrite matched_frameworks_hits. apply fmap_sublist, sublist_filter. }
  split; [done |]. split.
  - eapply sublist_NoDup; [apply FRAMEWORKS_keys_distinct | done].
  - apply sublist_length in Hsub. by rewrite length_fmap in Hsub.
Qed.

Lemma ci_substring_extend fragment pre name post :
  ci_substring fragment name → ci_substring fragment (pre +:+ name +:+ post).
Proof.
  intros (pre0 & mid & post0 & -> & Hmid).
  exists (pre +:+ pre0), mid, (post0 +:+ post). split; [| done].
  by rewrite !app_assoc'.
Qed.

Lemma any_keyword_extend pre name post keywords :
  any_keyword name keywords = true →
  any_keyword (pre +:+ name +:+ post) keywords = true.
Proof.
  rewrite !any_keyword_spec. intros (fragment & Hin & Hsub).
  exists fragment. split; [done |]. by apply ci_substring_extend.
Qed.

(** X2.  Text added before or after a file name never loses a framework:
    the frameworks matched for the name are matched, in the same order, for
    every longer name that contains it. *)
Theorem classify_extend (pre name post : string) :
  classify name `sublist_of` classify (pre +:+ name +:+ post).
Proof.
  unfold classify. rewrite !match_catalog_hits. apply fmap_sublist.
  unfold hits. induction FRAMEWORKS as [|[fw kws] catalog IH]; [done |].
  rewrite !filter_cons. cbn [snd].
  destruct (decide (Is_true (any_keyword name kws))) as [H1 | H1];
    destruct (decide (Is_true (any_keyword (pre +:+ name +:+ post) kws)))
      as [H2 | H2].
  - by apply sublist_skip.
  - destruct H2. apply Is_true_true, any_keyword_extend.
    by apply Is_true_true.
  - by apply sublist_cons.
  - done.
Qed.

(** ** [ensure_dir] *)





(** ** [rollback] alone *)

Lemma rollback_with_log w text :
  OS.lookup_path w ROLLBACK_LOG = Some (File text) →
  ∃ w', rollback w = (Ok tt, w') ∧
        calls w' = calls w ++
          (CallSystem <$> (Str.strip <$>
             reverse (OS.splitlines (OS.universal_newlines text)))) ++
          [CallPrint "Rollback complete."].
Proof.
  intros [Hroot Hfile]%lookup_path_file.
  unfold rollback, bind at 1 2, OS.open_read, OS.node_at.
  rewrite bool_decide_eq_false_2, Hfile by done.
  unfold bind at 1, OS.readlines. simpl. rewrite Hfile.
  destruct (for_ _ _ w) as [r w1] eqn:Hloop.
  apply system_loop_run in Hloop as [-> Hc].
  eexists. split; [done |]. simpl. rewrite Hc, <- app_assoc.
  by rewrite list_fmap_compose.
Qed.



(** ** [log_action] when the second log cannot be opened *)

Lemma open_append_file p w data :
  OS.lookup_path w p = Some (File data) →
  OS.open_append p w
  = (Ok {| OS.h_name := p; OS.h_key := OS.abspath w p |}, w).
Proof.
  unfold OS.lookup_path, OS.open_append. by intros ->.
Qed.

(** X5.  [log_action] is not atomic: it writes the audit line before it
    opens the rollback log.  When the audit log is a file and the rollback
    log cannot be opened because a directory stands at its path, the call
    raises IsADirectoryError, and the audit log has already received the
    line, for which the rollback log holds no instruction. *)
Theorem log_action_half_written action src dest w text :
  OS.lookup_path w LOG_FILE = Some (File text) →
  OS.lookup_path w ROLLBACK_LOG = Some Dir →
  ∃ w',
    log_action action src dest w
    = (Raise (IsADirectoryError ROLLBACK_LOG), w') ∧
    OS.lookup_path w' LOG_FILE
    = Some (File (text +:+ audit_line (clock w (ticks w)) action src dest)) ∧
    OS.lookup_path w' ROLLBACK_LOG = Some Dir ∧
    calls w' = calls w
      ++ [CallWrite LOG_FILE (audit_line (clock w (ticks w)) action src dest)].
Proof.
  intros Hlog Hrb.
  pose proof (log_files_distinct w) as Hne.
  apply lookup_path_file in Hlog as Hlog'. destruct Hlog' as [Hroot Hfile].
  unfold log_action. unfold bind at 1 2.
  rewrite (open_append_file _ _ _ Hlog).
  unfold OS.now, OS.write, bind at 1 2, record. simpl. rewrite Hfile.
  unfold bind, OS.put. simpl.
  set (w1 := set_fs _ _).
  assert (OS.lookup_path w1 ROLLBACK_LOG = Some Dir) as Hrb1.
  { revert Hrb. unfold OS.lookup_path, OS.node_at. subst w1. simpl.
    change (OS.abspath (set_fs _ _) ROLLBACK_LOG)
      with (OS.abspath w ROLLBACK_LOG).
    case_bool_decide; [done |]. by rewrite lookup_insert_ne. }
  unfold OS.open_append. unfold OS.lookup_path in Hrb1. rewrite Hrb1.
  eexists. split; [done |]. split; [| split; [done | done]].
  apply lookup_path_file. subst w1. split; [done |].
  change (OS.abspath (set_fs _ _) LOG_FILE) with (OS.abspath w LOG_FILE).
  simpl. by rewrite lookup_insert_eq.
Qed.

Lemma log_action_half_written_witness :
  ∃ w',
    log_action "LEAVE" "/data/x" "/data/x" half_world
    = (Raise (IsADirectoryError ROLLBACK_LOG), w') ∧
    OS.lookup_path w' LOG_FILE
    = Some (File ("earlier run"
                  +:+ audit_line "t0" "LEAVE" "/data/x" "/data/x")) ∧
    OS.lookup_path w' ROLLBACK_LOG = Some Dir ∧
    calls w' = calls half_world
      ++ [CallWrite LOG_FILE (audit_line "t0" "LEAVE" "/data/x" "/data/x")].
Proof.
  apply (log_action_half_written "LEAVE" "/data/x" "/data/x" half_world
           "earlier run").
  - vm_compute. reflexivity.
  - vm_compute. reflexivity.
Defined.

(** ** Classification is silent; [main] reports once *)

Section Quiet.

Lemma prints_of_app a b : prints_of (a ++ b) = prints_of a ++ prints_of b.
Proof. apply omap_app. Qed.

Variable w0 : World.

(** A step that adds calls which are neither prints nor shell commands
    keeps the run quiet. *)
Lemma quiet_step {A} (m : M A) :
  (∀ w r w', m w = (r, w') →
     ∃ new, calls w' = calls w ++ new ∧ prints_of new = [] ∧
            commands_of new = []) →
  preserves (quiet_since w0) m.
Proof.
  intros Hm w r w' (n0 & Hc0 & Hp0 & Hs0) H.
  destruct (Hm _ _ _ H) as (n1 & Hc1 & Hp1 & Hs1).
  exists (n0 ++ n1). rewrite Hc1, Hc0, <- app_assoc.
  by rewrite prints_of_app, commands_of_app, Hp0, Hp1, Hs0, Hs1.
Qed.

Lemma quiet_ensure_dir directory :
  preserves (quiet_since w0) (ensure_dir directory).
Proof.
  apply quiet_step. intros w r w' H.
  apply ensure_dir_run in H as (new & Hc & [-> | ->] & _); eauto.
Qed.

Lemma quiet_copy2 src dst : preserves (quiet_since w0) (OS.copy2 src dst).
Proof.
  apply quiet_step. intros w r w' H.
  apply copy2_run in H as (Hc & _); eauto.
Qed.

Lemma quiet_notes {A} (m : M A) : note_only m → preserves (quiet_since w0) m.
Proof.
  intros Hm. apply quiet_step. intros w r w' H.
  destruct (Hm _ _ _ H) as (new & Hc & Hnote & _).
  exists new. split; [done |].
  clear Hc. induction Hnote as [|c new Hc _ [IH1 IH2]]; [done |].
  by destruct c.
Qed.

Lemma quiet_log_action action src dest :
  preserves (quiet_since w0) (log_action action src dest).
Proof.
  apply quiet_step. intros w r w' H.
  apply log_action_run in H as (_ & _ & _ & Hr).
  destruct r as [[]|e]; [destruct Hr as (Hc & _) | destruct Hr as [Hc | Hc]];
    eauto.
  exists []. by rewrite app_nil_r.
Qed.

Lemma quiet_classify_file file_path :
  preserves (quiet_since w0) (classify_file file_path).
Proof.
  unfold classify_file. destruct (matched_frameworks _) as [|fw fws].
  - apply preserves_bind.
    + apply quiet_notes, assign_joplin_tags_run.
    + intros _. apply quiet_log_action.
  - apply preserves_for. intros framework. unfold copy_to_framework.
    apply preserves_bind; [apply quiet_ensure_dir |]. intros _.
    apply preserves_bind; [apply quiet_copy2 |]. intros _.
    apply preserves_bind.
    + apply quiet_notes, assign_joplin_tags_run.
    + intros _. apply quiet_log_action.
Qed.

Lemma quiet_process_files base_dir :
  preserves (quiet_since w0) (process_files base_dir).
Proof.
  unfold process_files. apply preserves_bind.
  - by intros w r w' Hq [= <- <-].
  - intros yields. apply preserves_for. intros [[root dirs] files].
    apply preserves_for. intros file. apply quiet_classify_file.
Qed.

End Quiet.

Lemma quiet_since_refl w : quiet_since w w.
Proof. exists []. by rewrite app_nil_r. Qed.

(** X6.  Classifying a directory tree never prints and never hands a
    command to the shell, however it ends: files are created by
    [os.makedirs], [shutil.copy2] and the two log writes only, and nothing
    is moved or deleted. *)
Theorem process_files_is_quiet (base_dir : string) w r w' :
  process_files base_dir w = (r, w') →
  ∃ new,
    calls w' = calls w ++ new ∧ prints_of new = [] ∧ commands_of new = [].
Proof.
  intros H. by apply (quiet_process_files w _ _ _ _ (quiet_since_refl w)) in H.
Qed.

Lemma process_files_is_quiet_witness :
  ∃ new,
    calls (process_files TEST_DIR walk_world).2 = calls walk_world ++ new ∧
    prints_of new = [] ∧ commands_of new = [].
Proof.
  apply (process_files_is_quiet TEST_DIR walk_world
           (process_files TEST_DIR walk_world).1).
  vm_compute. reflexivity.
Defined.

(** X7.  [main] never ends with an exception and reports exactly once: it
    prints "File classification complete." when the walk returned, and the
    line "An error occurred: ..." with the text of the exception when the
    walk raised; never both, and no command goes to the shell. *)
Theorem main_reports_once w :
  ∃ w' new,
    main w = (Ok tt, w') ∧
    calls w' = calls w ++ new ∧
    commands_of new = [] ∧
    prints_of new
    = [ match (process_files TEST_DIR w).1 with
        | Ok _ => "File classification complete."
        | Raise e => "An error occurred: " +:+ exn_str e
        end ].
Proof.
  unfold main, try_except, bind.
  destruct (process_files TEST_DIR w) as [[[]|e] w1] eqn:Hrun;
    apply process_files_is_quiet in Hrun as (new & Hc & Hp & Hs); simpl;
    eexists _, (new ++ [_]);
    (split; [done |]); simpl; rewrite Hc, <- app_assoc;
    (split; [done |]);
    by rewrite commands_of_app, prints_of_app, Hp, Hs.
Qed.

(** ** The requests to the note service *)

Section NoteTrace.

Lemma request_ok c name w w' :
  JoplinApi.request c name w = (Ok tt, w') →
  calls w' = calls w ++ [c] ∧ notes (joplin w') = notes (joplin w).
Proof.
  unfold JoplinApi.request. intros H.
  apply bind_inv in H as [([] & w1 & H1 & H) | (e & _ & ?)]; [| done].
  apply record_run in H1 as [_ ->]. revert H. simpl.
  by destruct (joplin_ok w _); intros [= <-].
Qed.

Lemma create_note_ok title body w id w' :
  JoplinApi.create_note title body w = (Ok id, w') →
  calls w' = calls w ++ [CallCreateNote title body] ∧
  id = length (notes (joplin w)).
Proof.
  unfold JoplinApi.create_note. intros H.
  apply bind_inv in H as [([] & w1 & H1 & H) | (e & _ & ?)]; [| done].
  apply request_ok in H1 as [Hc Hn]. injection H as <- <-. by rewrite Hn.
Qed.

Lemma tag_requests_ok tag note w w' :
  (JoplinApi.create_tag tag >> JoplinApi.add_tag_to_note tag note) w
  = (Ok tt, w') →
  calls w' = calls w ++ tag_requests note tag.
Proof.
  intros H.
  apply bind_inv in H as [([] & w1 & H1 & H) | (e & _ & ?)]; [| done].
  unfold JoplinApi.create_tag in H1. unfold JoplinApi.add_tag_to_note in H.
  apply bind_inv in H1 as [([] & w2 & H1 & H2) | (e & _ & ?)]; [| done].
  apply bind_inv in H as [([] & w3 & H3 & H4) | (e & _ & ?)]; [| done].
  apply request_ok in H1 as [Hc1 _]. apply request_ok in H3 as [Hc3 _].
  injection H2 as <-. injection H4 as <-. simpl in *.
  by rewrite Hc3, Hc1, <- app_assoc.
Qed.

Lemma tag_loop_ok note : ∀ (labels : list string) w w',
  for_ labels (λ tag, JoplinApi.create_tag tag >>
                    JoplinApi.add_tag_to_note tag note) w = (Ok tt, w') →
  calls w' = calls w ++ (labels ≫= tag_requests note).
Proof.
  induction labels as [|tag labels IH]; intros w w' H.
  - injection H as <-. by rewrite app_nil_r.
  - simpl in H.
    apply bind_inv in H as [([] & w1 & H1 & H) | (e & _ & ?)]; [| done].
    apply tag_requests_ok in H1. apply IH in H.
    rewrite H, H1, <- app_assoc. done.
Qed.

End NoteTrace.

(** X8.  A call of [assign_joplin_tags] that returns has asked the note
    service for exactly one note, titled with the base name of the file and
    holding the path and its directory, and then, for each tag in order,
    for the tag and for its attachment to that very note: 1 + 2 * len(tags)
    requests, none repeated. *)
Theorem assign_joplin_tags_requests (file_path : string)
    (labels : list string) w w' :
  assign_joplin_tags file_path labels w = (Ok tt, w') →
  ∃ note,
    calls w' = calls w ++
      CallCreateNote (PosixPath.basename file_path) (note_content file_path)
      :: (labels ≫= tag_requests note) ∧
    note = length (notes (joplin w)) ∧
    length (calls w') = length (calls w) + 1 + 2 * length labels.
Proof.
  unfold assign_joplin_tags. intros H.
  apply bind_inv in H as [(note & w1 & H1 & H) | (e & _ & ?)]; [| done].
  apply create_note_ok in H1 as [Hc1 Hid]. apply tag_loop_ok in H.
  exists note. split; [| split; [done |]].
  - rewrite H, Hc1, <- app_assoc. done.
  - rewrite H, Hc1, !length_app. simpl.
    assert (length (labels ≫= tag_requests note) = 2 * length labels)
      as ->; [| lia].
    clear. induction labels as [|t labels IH]; [done |].
    change ((t :: labels) ≫= tag_requests note)
      with (tag_requests note t ++ (labels ≫= tag_requests note)).
    rewrite length_app, IH. simpl. lia.
Qed.

Lemma assign_joplin_tags_requests_witness :
  ∃ note,
    calls (assign_joplin_tags "/data/random_notes.txt"
             ["status:Unclassified"] example_world).2
    = calls example_world ++
      CallCreateNote "random_notes.txt" (note_content "/data/random_notes.txt")
      :: (["status:Unclassified"] ≫= tag_requests note) ∧
    note = 0 ∧
    length (calls (assign_joplin_tags "/data/random_notes.txt"
                     ["status:Unclassified"] example_world).2)
    = length (calls example_world) + 1 + 2 * 1.
Proof.
  apply (assign_joplin_tags_requests "/data/random_notes.txt"
           ["status:Unclassified"] example_world).
  vm_compute. reflexivity.
Defined.

(** ** The exact trace of a classification that returns *)

Section PassTrace.

Lemma assign_joplin_tags_ok file_path (labels : list string) w w' :
  assign_joplin_tags file_path labels w = (Ok tt, w') →
  ∃ note,
    calls w' = calls w ++
      CallCreateNote (PosixPath.basename file_path) (note_content file_path)
      :: (labels ≫= tag_requests note).
Proof.
  unfold assign_joplin_tags. intros H.
  apply bind_inv in H as [(note & w1 & H1 & H) | (e & _ & ?)]; [| done].
  apply create_note_ok in H1 as [Hc1 _]. apply tag_loop_ok in H.
  exists note. by rewrite H, Hc1, <- app_assoc.
Qed.

Lemma copy_to_framework_trace file_path framework w w' :
  copy_to_framework file_path framework w = (Ok tt, w') →
  ∃ pass, calls w' = calls w ++ pass ∧ is_pass file_path framework pass.
Proof.
  unfold copy_to_framework. intros H.
  apply bind_inv in H as [([] & w1 & H1 & H) | (e & _ & ?)]; [| done].
  apply bind_inv in H as [([] & w2 & H2 & H) | (e & _ & ?)]; [| done].
  apply bind_inv in H as [([] & w3 & H3 & H) | (e & _ & ?)]; [| done].
  apply ensure_dir_run in H1 as (mk & Hc1 & Hmk & _).
  apply copy2_run in H2 as (Hc2 & _).
  apply assign_joplin_tags_ok in H3 as (note & Hc3).
  apply log_action_run in H as (_ & _ & _ & Hc & _).
  exists (pass_calls file_path framework mk note (clock w3 (ticks w3))).
  split; [| by exists mk, note, (clock w3 (ticks w3))].
  rewrite Hc, Hc3, Hc2, Hc1. unfold pass_calls. simpl.
  by rewrite <- !app_assoc.
Qed.

Lemma copy_loop_trace file_path : ∀ frameworks w w',
  for_ frameworks (copy_to_framework file_path) w = (Ok tt, w') →
  ∃ passes,
    calls w' = calls w ++ concat passes ∧
    Forall2 (is_pass file_path) frameworks passes.
Proof.
  induction frameworks as [|fw fws IH]; simpl; intros w w' H.
  - injection H as <-. exists []. by rewrite app_nil_r.
  - apply bind_inv in H as [([] & w1 & H1 & H) | (e & _ & ?)]; [| done].
    apply copy_to_framework_trace in H1 as (pass & Hc1 & Hpass).
    apply IH in H as (passes & Hc & Hpasses).
    exists (pass :: passes). split; [| by constructor].
    simpl. by rewrite Hc, Hc1, <- app_assoc.
Qed.

End PassTrace.

(** X9.  A classification of a matched file that returns has made exactly
    these calls: for each matched framework, in catalog order, one pass
    that makes the framework folder if it is missing, copies the file,
    makes the note, creates and attaches the tag of the framework, writes
    the audit line and then the rollback line.  So a copy is always made
    before it is logged, and each framework has a note of its own. *)
Theorem classify_file_trace (file_path : string) w w' :
  matched_frameworks file_path ≠ [] →
  classify_file file_path w = (Ok tt, w') →
  ∃ passes,
    calls w' = calls w ++ concat passes ∧
    Forall2 (is_pass file_path) (matched_frameworks file_path) passes.
Proof.
  intros Hm H. rewrite classify_file_matched in H by done.
  by apply copy_loop_trace.
Qed.

Lemma classify_file_trace_witness :
  ∃ passes,
    calls (classify_file "/data/nist_ffiec.txt" example_world).2
    = calls example_world ++ concat passes ∧
    Forall2 (is_pass "/data/nist_ffiec.txt")
            (matched_frameworks "/data/nist_ffiec.txt") passes.
Proof.
  apply (classify_file_trace "/data/nist_ffiec.txt" example_world).
  - vm_compute. discriminate.
  - vm_compute. reflexivity.
Defined.

(** ** Counting what a run leaves *)

Section Counts.

Lemma notes_made_app a b : notes_made (a ++ b) = notes_made a ++ notes_made b.
Proof. apply omap_app. Qed.

Lemma tags_attached_app a b :
  tags_attached (a ++ b) = tags_attached a ++ tags_attached b.
Proof. apply omap_app. Qed.

Lemma pass_projections file_path framework pass :
  is_pass file_path framework pass →
  copies_of pass = [(file_path, dest_path_of framework file_path)] ∧
  length (writes_to LOG_FILE pass) = 1 ∧
  length (writes_to ROLLBACK_LOG pass) = 1 ∧
  notes_made pass = [(PosixPath.basename file_path, note_content file_path)] ∧
  (tags_attached pass).*1 = ["framework:" +:+ framework].
Proof. intros (mk & note & now & [-> | ->] & ->); by repeat split. Qed.

Lemma passes_projections file_path : ∀ frameworks passes,
  Forall2 (is_pass file_path) frameworks passes →
  copies_of (concat passes)
    = (λ fw, (file_path, dest_path_of fw file_path)) <$> frameworks ∧
  length (writes_to LOG_FILE (concat passes)) = length frameworks ∧
  length (writes_to ROLLBACK_LOG (concat passes)) = length frameworks ∧
  notes_made (concat passes)
    = replicate (length frameworks)
        (PosixPath.basename file_path, note_content file_path) ∧
  (tags_attached (concat passes)).*1
    = (λ fw, "framework:" +:+ fw) <$> frameworks.
Proof.
  induction 1 as [|fw pass fws passes Hpass _ (IH1 & IH2 & IH3 & IH4 & IH5)];
    [done |].
  apply pass_projections in Hpass as (H1 & H2 & H3 & H4 & H5). simpl.
  rewrite copies_of_app, !writes_to_app, notes_made_app, tags_attached_app.
  rewrite fmap_app, !length_app, H1, H2, H3, H4, H5, IH1, IH2, IH3, IH4, IH5.
  done.
Qed.

(** What a classification that returns leaves in the trace, for a matched
    and for an unmatched file alike. *)
Lemma classify_file_ok file_path w w' :
  classify_file file_path w = (Ok tt, w') →
  ∃ new,
    calls w' = calls w ++ new ∧
    copies_of new
      = (λ fw, (file_path, dest_path_of fw file_path))
        <$> matched_frameworks file_path ∧
    length (writes_to LOG_FILE new) = entries_for file_path ∧
    length (writes_to ROLLBACK_LOG new) = entries_for file_path ∧
    notes_made new
      = replicate (entries_for file_path)
          (PosixPath.basename file_path, note_content file_path) ∧
    (tags_attached new).*1 = tags_for file_path.
Proof.
  intros H. unfold entries_for, tags_for.
  destruct (matched_frameworks file_path) as [|fw fws] eqn:Hm.
  - rewrite classify_file_unmatched in H by done.
    apply bind_inv in H as [([] & w1 & H1 & H) | (e & _ & ?)]; [| done].
    apply assign_joplin_tags_ok in H1 as (note & Hc1).
    apply log_action_run in H as (_ & _ & _ & Hc & _).
    eexists. split; [by rewrite Hc, Hc1, <- app_assoc |]. by repeat split.
  - rewrite classify_file_matched, Hm in H by (by rewrite Hm).
    apply copy_loop_trace in H as (passes & Hc & Hpasses).
    exists (concat passes). split; [done |].
    apply passes_projections in Hpasses as (H1 & H2 & H3 & H4 & H5).
    rewrite H1, H2, H3, H4, H5. simpl length.
    rewrite (Nat.max_r 1 (S _)) by lia. done.
Qed.

End Counts.

(** X10.  A classification that returns makes one note per matched
    framework, not one note per file: a file that matches N frameworks gets
    N notes with the same title and the same body, each with one tag
    "framework:<id>", in catalog order; an unmatched file gets one note,
    tagged "status:Unclassified". *)
Theorem classify_file_notes (file_path : string) w w' :
  classify_file file_path w = (Ok tt, w') →
  ∃ new,
    calls w' = calls w ++ new ∧
    notes_made new
      = replicate (entries_for file_path)
          (PosixPath.basename file_path, note_content file_path) ∧
    (tags_attached new).*1 = tags_for file_path.
Proof.
  intros H. apply classify_file_ok in H as (new & Hc & _ & _ & _ & Hn & Ht).
  by exists new.
Qed.

Lemma classify_file_notes_witness :
  ∃ new,
    calls (classify_file "/data/nist_ffiec.txt" example_world).2
    = calls example_world ++ new ∧
    notes_made new
      = replicate 2 ("nist_ffiec.txt", note_content "/data/nist_ffiec.txt") ∧
    (tags_attached new).*1 = ["framework:FFIEC"; "framework:NIST"].
Proof.
  apply (classify_file_notes "/data/nist_ffiec.txt" example_world).
  vm_compute. reflexivity.
Defined.

Lemma classify_loop_ok : ∀ paths w w',
  for_ paths classify_file w = (Ok tt, w') →
  ∃ new,
    calls w' = calls w ++ new ∧
    copies_of new
      = paths ≫= (λ p, (λ fw, (p, dest_path_of fw p)) <$> matched_frameworks p) ∧
    length (writes_to LOG_FILE new) = sum_list (entries_for <$> paths) ∧
    length (writes_to ROLLBACK_LOG new) = sum_list (entries_for <$> paths) ∧
    length (notes_made new) = sum_list (entries_for <$> paths).
Proof.
  induction paths as [|p paths IH]; intros w w' H.
  - injection H as <-. exists []. by rewrite app_nil_r.
  - simpl in H.
    apply bind_inv in H as [([] & w1 & H1 & H) | (e & _ & ?)]; [| done].
    apply classify_file_ok in H1 as (n1 & Hc1 & Hcp1 & Hl1 & Hr1 & Hn1 & _).
    apply IH in H as (n2 & Hc2 & Hcp2 & Hl2 & Hr2 & Hn2).
    exists (n1 ++ n2). rewrite Hc2, Hc1, <- app_assoc.
    rewrite copies_of_app, !writes_to_app, notes_made_app, !length_app.
    rewrite Hcp1, Hcp2, Hl1, Hl2, Hr1, Hr2, Hn1, Hn2, length_replicate.
    done.
Qed.

(** X11.  A walk that returns has classified every walked file once, in the
    order of the walk: the copies asked for are those of the files in walk
    order, each file with its frameworks in catalog order; and the audit
    log, the rollback log and the note service each received one entry per
    matched framework of every file, and one entry for every unmatched
    file. *)
Theorem process_files_totals (base_dir : string) w w' :
  process_files base_dir w = (Ok tt, w') →
  let paths := walked_paths (walk_yields w base_dir) in
  ∃ new,
    calls w' = calls w ++ new ∧
    copies_of new
      = paths ≫= (λ p, (λ fw, (p, dest_path_of fw p)) <$> matched_frameworks p) ∧
    length (writes_to LOG_FILE new) = sum_list (entries_for <$> paths) ∧
    length (writes_to ROLLBACK_LOG new) = sum_list (entries_for <$> paths) ∧
    length (notes_made new) = sum_list (entries_for <$> paths).
Proof.
  intros H. rewrite process_files_walked in H. by apply classify_loop_ok.
Qed.

Lemma process_files_totals_witness :
  let paths := walked_paths (walk_yields tree_world TEST_DIR) in
  ∃ new,
    calls (process_files TEST_DIR tree_world).2 = calls tree_world ++ new ∧
    copies_of new
      = paths ≫= (λ p, (λ fw, (p, dest_path_of fw p)) <$> matched_frameworks p) ∧
    length (writes_to LOG_FILE new) = sum_list (entries_for <$> paths) ∧
    length (writes_to ROLLBACK_LOG new) = sum_list (entries_for <$> paths) ∧
    length (notes_made new) = sum_list (entries_for <$> paths).
Proof.
  apply (process_files_totals TEST_DIR tree_world).
  vm_compute. reflexivity.
Defined.

(** ** The logs never run ahead of the copies *)

Section NeverAhead.

Local Ltac tally :=
  simpl; repeat split; first [lia | done | (intros; lia)].

(** One pass of the loop, however it ends: at most one copy is asked for,
    the audit line is written only after the copy, and the rollback line
    only after the audit line. *)
Lemma copy_to_framework_any file_path framework w r w' :
  copy_to_framework file_path framework w = (r, w') →
  ∃ new,
    calls w' = calls w ++ new ∧
    length (writes_to ROLLBACK_LOG new) ≤ length (writes_to LOG_FILE new) ∧
    length (writes_to LOG_FILE new) ≤ length (copies_of new) ∧
    length (copies_of new) ≤ 1 ∧
    (r = Ok tt → length (writes_to ROLLBACK_LOG new) = 1).
Proof.
  unfold copy_to_framework. intros H.
  apply bind_inv in H as [([] & w1 & H1 & H) | (e & H1 & ->)];
    apply ensure_dir_run in H1 as (mk & Hc1 & Hmk & _).
  2:{ exists mk. split; [done |]. destruct Hmk as [-> | ->]; tally. }
  apply bind_inv in H as [([] & w2 & H2 & H) | (e & H2 & ->)];
    apply copy2_run in H2 as (Hc2 & _).
  2:{ eexists. split; [by rewrite Hc2, Hc1, <- app_assoc |].
      rewrite !writes_to_app, copies_of_app.
      destruct Hmk as [-> | ->]; tally. }
  apply bind_inv in H as [([] & w3 & H3 & H) | (e & H3 & ->)];
    apply assign_joplin_tags_run in H3 as (n3 & Hc3 & Hn3 & _);
    apply note_calls_silent in Hn3 as (Hcp3 & Hw3 & _).
  2:{ eexists. split; [by rewrite Hc3, Hc2, Hc1, <- !app_assoc |].
      rewrite !writes_to_app, !copies_of_app, Hcp3, !Hw3.
      destruct Hmk as [-> | ->]; tally. }
  apply log_action_run in H as (_ & _ & _ & Hr).
  assert (∃ n4, calls w' = calls w3 ++ n4 ∧ copies_of n4 = [] ∧
                length (writes_to ROLLBACK_LOG n4) ≤ length (writes_to LOG_FILE n4) ∧
                length (writes_to LOG_FILE n4) ≤ 1 ∧
                (r = Ok tt → length (writes_to ROLLBACK_LOG n4) = 1))
    as (n4 & Hc4 & Hcp4 & Hle & Hle1 & Hok).
  { destruct r as [[]|e].
    - destruct Hr as (Hc & _). eexists. split; [done |]. tally.
    - destruct Hr as [Hc | Hc].
      + exists []. rewrite app_nil_r. split; [done |]. tally.
      + eexists. split; [done |]. tally. }
  eexists. split; [by rewrite Hc4, Hc3, Hc2, Hc1, <- !app_assoc |].
  rewrite !writes_to_app, !copies_of_app, Hcp3, !Hw3, Hcp4, !length_app.
  destruct Hmk as [-> | ->]; simpl; repeat split; try lia;
    intros Hr'; specialize (Hok Hr'); lia.
Qed.

Lemma copy_loop_any file_path : ∀ frameworks w r w',
  for_ frameworks (copy_to_framework file_path) w = (r, w') →
  ∃ new,
    calls w' = calls w ++ new ∧
    length (writes_to ROLLBACK_LOG new) ≤ length (writes_to LOG_FILE new) ∧
    length (writes_to LOG_FILE new) ≤ length (copies_of new) ∧
    length (copies_of new) ≤ length frameworks.
Proof.
  induction frameworks as [|fw fws IH]; simpl; intros w r w' H.
  - injection H as <- <-. exists []. by rewrite app_nil_r.
  - apply bind_inv in H as [([] & w1 & H1 & H) | (e & H1 & ->)];
      apply copy_to_framework_any in H1 as (n1 & Hc1 & Ha & Hb & Hc & _).
    + apply IH in H as (n2 & Hc2 & Ha2 & Hb2 & Hc2').
      exists (n1 ++ n2). rewrite Hc2, Hc1, <- app_assoc.
      rewrite !writes_to_app, copies_of_app, !length_app.
      repeat split; lia.
    + exists n1. repeat split; try done; lia.
Qed.

End NeverAhead.

(** X12.  However a classification ends, the rollback log never receives
    more lines than the audit log; and for a matched file the audit log
    never receives more lines than copies were asked for, which are never
    more than the matched frameworks: no log line speaks of a copy that was
    not attempted before. *)
Theorem logs_never_ahead (file_path : string) w r w' :
  classify_file file_path w = (r, w') →
  ∃ new,
    calls w' = calls w ++ new ∧
    length (writes_to ROLLBACK_LOG new) ≤ length (writes_to LOG_FILE new) ∧
    (matched_frameworks file_path ≠ [] →
     length (writes_to LOG_FILE new) ≤ length (copies_of new) ∧
     length (copies_of new) ≤ length (matched_frameworks file_path)).
Proof.
  intros H. destruct (matched_frameworks file_path) as [|fw fws] eqn:Hm.
  - rewrite classify_file_unmatched in H by done.
    apply bind_inv in H as [([] & w1 & H1 & H) | (e & H1 & ->)];
      apply assign_joplin_tags_run in H1 as (n1 & Hc1 & Hn1 & _);
      apply note_calls_silent in Hn1 as (_ & Hw1 & _).
    + apply log_action_run in H as (_ & _ & _ & Hr).
      destruct r as [[]|e]; [destruct Hr as (Hc & _) | destruct Hr as [Hc | Hc]].
      * eexists. split; [by rewrite Hc, Hc1, <- app_assoc |].
        rewrite !writes_to_app, !Hw1. by split.
      * exists n1. rewrite !Hw1. split; [congruence | by split].
      * eexists. split; [by rewrite Hc, Hc1, <- app_assoc |].
        rewrite !writes_to_app, !Hw1. simpl. split; [lia | done].
    + exists n1. rewrite !Hw1. by repeat split.
  - rewrite classify_file_matched, Hm in H by (by rewrite Hm).
    apply copy_loop_any in H as (new & Hc & Ha & Hb & Hc').
    exists new. by repeat split.
Qed.

Lemma logs_never_ahead_witness :
  ∃ new,
    calls (classify_file "/data/nist_ffiec.txt" blocked_world).2
    = calls blocked_world ++ new ∧
    length (writes_to ROLLBACK_LOG new) ≤ length (writes_to LOG_FILE new) ∧
    (matched_frameworks "/data/nist_ffiec.txt" ≠ [] →
     length (writes_to LOG_FILE new) ≤ length (copies_of new) ∧
     length (copies_of new) ≤ length (matched_frameworks "/data/nist_ffiec.txt")).
Proof.
  apply (logs_never_ahead "/data/nist_ffiec.txt" blocked_world
           (classify_file "/data/nist_ffiec.txt" blocked_world).1).
  vm_compute. reflexivity.
Defined.

(** ** Paths: base names and joins *)

Section Paths.

Implicit Types a b p : string.

Lemma slash_free_cons c b :
  slash_free (String c b) = true ↔
  Ascii.eqb c PosixPath.sep = false ∧ slash_free b = true.
Proof.
  change (slash_free (String c b))
    with (negb (Ascii.eqb c PosixPath.sep) && slash_free b).
  by rewrite andb_true_iff, negb_true_iff.
Qed.

Lemma slash_free_startswith b :
  slash_free b = true → Str.startswith "/" b = false.
Proof.
  destruct b as [|c b]; [done |]. intros [Hc _]%slash_free_cons.
  change (Str.startswith "/" (String c b))
    with (Ascii.eqb PosixPath.sep c && true).
  by rewrite Ascii.eqb_sym, Hc.
Qed.

Lemma cut_cons c p :
  PosixPath.cut (String c p)
  = match (PosixPath.cut p).1 with
    | EmptyString =>
        if Ascii.eqb c PosixPath.sep
        then (String c EmptyString, (PosixPath.cut p).2)
        else (EmptyString, String c (PosixPath.cut p).2)
    | h => (String c h, (PosixPath.cut p).2)
    end.
Proof.
  change (PosixPath.cut (String c p))
    with (let '(h, tl) := PosixPath.cut p in
          match h with
          | EmptyString =>
              if Ascii.eqb c PosixPath.sep then (String c EmptyString, tl)
              else (EmptyString, String c tl)
          | _ => (String c h, tl)
          end).
  by destruct (PosixPath.cut p) as [[|x h] tl].
Qed.

Lemma cut_slash_free b : slash_free b = true → PosixPath.cut b = ("", b).
Proof.
  induction b as [|c b IH]; [done |]. intros [Hc Hb]%slash_free_cons.
  by rewrite cut_cons, (IH Hb), Hc.
Qed.

Lemma basename_slash_free p : slash_free (PosixPath.basename p) = true.
Proof.
  unfold PosixPath.basename. induction p as [|c p IH]; [done |].
  rewrite cut_cons. destruct (PosixPath.cut p) as [[|x h] tl]; simpl in *;
    [| done].
  destruct (Ascii.eqb c PosixPath.sep) eqn:Hc; [done |].
  by apply slash_free_cons.
Qed.

Lemma basename_basename p :
  PosixPath.basename (PosixPath.basename p) = PosixPath.basename p.
Proof.
  unfold PosixPath.basename at 1.
  by rewrite (cut_slash_free _ (basename_slash_free p)).
Qed.

(** Whatever stands before a slash does not change the base name. *)
Lemma cut_after_sep p : ∀ a,
  (PosixPath.cut (a +:+ String PosixPath.sep p)).1 ≠ "" ∧
  (PosixPath.cut (a +:+ String PosixPath.sep p)).2 = (PosixPath.cut p).2.
Proof.
  induction a as [|c a [IH1 IH2]].
  - change ("" +:+ String PosixPath.sep p) with (String PosixPath.sep p).
    rewrite cut_cons. by destruct (PosixPath.cut p).1.
  - change (String c a +:+ String PosixPath.sep p)
      with (String c (a +:+ String PosixPath.sep p)).
    rewrite cut_cons.
    by destruct (PosixPath.cut (a +:+ String PosixPath.sep p)).1.
Qed.

Lemma basename_after_sep a p :
  PosixPath.basename (a +:+ String PosixPath.sep p) = PosixPath.basename p.
Proof. apply cut_after_sep. Qed.

Lemma endswith_char_inv c a :
  Str.endswith_char c a = true → ∃ a', a = a' +:+ String c "".
Proof.
  induction a as [|x a IH]; [done |]. destruct a as [|y a].
  - intros ->%Ascii.eqb_eq. by exists "".
  - intros [a' Ha']%IH. exists (String x a'). simpl. by rewrite <- Ha'.
Qed.

(** [os.path.basename(os.path.join(a, p)) == os.path.basename(p)] *)
Lemma basename_join a p :
  PosixPath.basename (PosixPath.join a p) = PosixPath.basename p.
Proof.
  unfold PosixPath.join. destruct (Str.startswith "/" p); [done |].
  destruct (bool_decide (a = "")) eqn:Ha; simpl.
  - apply bool_decide_eq_true_1 in Ha as ->. done.
  - destruct (Str.endswith_char PosixPath.sep a) eqn:He.
    + apply endswith_char_inv in He as [a' ->].
      rewrite app_assoc'. apply basename_after_sep.
    + apply basename_after_sep.
Qed.

Lemma basename_abspath w p :
  PosixPath.basename (OS.abspath w p) = PosixPath.basename p.
Proof. apply basename_join. Qed.

End Paths.

(** ** The logs are only appended to *)

Section AppendOnly.

(** [shutil.copy2] writes to its target only: to [dst], or to the entry of
    the source's name inside [dst]. *)
Lemma copy2_frame src dst w r w' :
  OS.copy2 src dst w = (r, w') →
  ∀ k, k ≠ OS.abspath w dst →
       k ≠ OS.abspath w (PosixPath.join dst (PosixPath.basename src)) →
       fs w' !! k = fs w !! k.
Proof.
  unfold OS.copy2. intros H k Hk1 Hk2.
  apply bind_inv in H as [([] & w1 & H1 & H) | (e & H1 & ->)];
    apply record_run in H1 as [? ->]; [| done].
  apply bind_inv in H as [(into & w2 & H2 & H) | (e & H2 & ->)];
    [| discriminate].
  injection H2 as _ <-. revert H.
  change (OS.abspath (set_calls _ w)) with (OS.abspath w).
  assert (k ≠ OS.abspath w (if into
             then PosixPath.join dst (PosixPath.basename src) else dst))
    as Hk by (by destruct into).
  generalize dependent (if into
    then PosixPath.join dst (PosixPath.basename src) else dst).
  intros dst' Hk.
  assert (∀ n r w', OS.put (OS.abspath w dst') n (set_calls
             (calls w ++ [CallCopy2 src dst]) w) = (r, w') →
             fs w' !! k = fs w !! k) as Hput.
  { intros n r0 w0 [= <- <-]. simpl. by rewrite lookup_insert_ne. }
  case_bool_decide; [by intros [= <- <-] |].
  destruct (OS.node_at _ (OS.abspath w src)) as [[data|]|];
    try by intros [= <- <-].
  destruct (OS.node_at _ (OS.abspath w dst')) as [[]|].
  - apply Hput.
  - by intros [= <- <-].
  - unfold bind, OS.parent_check.
    destruct (OS.node_at _ _) as [[]|]; try by intros [= <- <-].
    apply Hput.
Qed.

Variables dir key text : string.

Lemma grows_ensure_dir directory :
  preserves (grows_at dir key text) (ensure_dir directory).
Proof.
  intros w r w' (Hd & more & Hmore) H.
  apply ensure_dir_run in H as (new & _ & _ & Hd' & Hsub).
  split; [congruence |]. exists more. by eapply lookup_weaken.
Qed.

Lemma grows_notes {A} (m : M A) :
  note_only m → preserves (grows_at dir key text) m.
Proof.
  intros Hm w r w' (Hd & Hmore) H.
  destruct (Hm _ _ _ H) as (new & _ & _ & Hd' & Hf).
  unfold grows_at. rewrite Hf. split; [congruence | done].
Qed.

Lemma grows_log_action action src dest :
  preserves (grows_at dir key text) (log_action action src dest).
Proof.
  intros w r w' (Hd & more & Hmore) H.
  apply log_action_run in H as (Hd' & _ & Hgrow & _).
  split; [congruence |]. destruct (Hgrow _ _ Hmore) as [more' Hmore'].
  exists (more +:+ more'). by rewrite <- app_assoc'.
Qed.

Lemma grows_copy2 file_path dst :
  PosixPath.basename key ≠ PosixPath.basename file_path →
  PosixPath.basename dst = PosixPath.basename file_path →
  preserves (grows_at dir key text) (OS.copy2 file_path dst).
Proof.
  intros Hkey Hdst w r w' (Hd & Hmore) H.
  pose proof H as Hrun. apply copy2_run in Hrun as (_ & Hd' & _).
  unfold grows_at. rewrite (copy2_frame _ _ _ _ _ H).
  - split; [congruence | done].
  - intros ->. by rewrite basename_abspath in Hkey.
  - intros ->. by rewrite basename_abspath, basename_join, basename_basename
      in Hkey.
Qed.

Lemma grows_classify_file file_path :
  (matched_frameworks file_path ≠ [] →
   PosixPath.basename key ≠ PosixPath.basename file_path) →
  preserves (grows_at dir key text) (classify_file file_path).
Proof.
  intros Hkey. unfold classify_file.
  destruct (matched_frameworks file_path) as [|fw fws].
  - apply preserves_bind.
    + apply grows_notes, assign_joplin_tags_run.
    + intros _. apply grows_log_action.
  - apply preserves_for. intros framework. unfold copy_to_framework.
    apply preserves_bind; [apply grows_ensure_dir |]. intros _.
    apply preserves_bind.
    { apply grows_copy2; [by apply Hkey |].
      by rewrite basename_join, basename_basename. }
    intros _. apply preserves_bind.
    + apply grows_notes, assign_joplin_tags_run.
    + intros _. apply grows_log_action.
Qed.

End AppendOnly.

(** A file whose name is that of a log matches no framework. *)
Lemma log_names_unmatched file_path log :
  log = LOG_FILE ∨ log = ROLLBACK_LOG →
  matched_frameworks file_path ≠ [] →
  log ≠ PosixPath.basename file_path.
Proof.
  intros Hlog Hm Heq. apply Hm. unfold matched_frameworks. rewrite <- Heq.
  by destruct Hlog as [-> | ->].
Qed.

(** X13.  Classification only ever appends to the two logs: whatever file
    is classified and however the classification ends, each log that was
    there still holds all of its earlier text, in place, at the start.  No
    copy can land on a log, because a file named like a log matches no
    framework. *)
Theorem logs_are_append_only (file_path log text : string) w r w' :
  log = LOG_FILE ∨ log = ROLLBACK_LOG →
  OS.lookup_path w log = Some (File text) →
  classify_file file_path w = (r, w') →
  ∃ more, OS.lookup_path w' log = Some (File (text +:+ more)).
Proof.
  intros Hlog [Hroot Hfile]%lookup_path_file H.
  assert (grows_at (cwd w) (OS.abspath w log) text w) as HI.
  { split; [done |]. exists "". by rewrite app_empty_r. }
  eapply grows_classify_file in H as (Hd & more & Hmore); [| | exact HI].
  - exists more. apply lookup_path_file.
    by rewrite (abspath_cwd w w') by done.
  - intros Hm. rewrite basename_abspath.
    assert (PosixPath.basename log = log) as ->
      by (by destruct Hlog as [-> | ->]).
    by apply log_names_unmatched.
Qed.

Lemma logs_are_append_only_witness :
  ∃ more,
    OS.lookup_path
      (classify_file "/data/x/nist_plan.txt" second_run_world).2 LOG_FILE
    = Some (File ("earlier run" +:+ more)).
Proof.
  apply (logs_are_append_only "/data/x/nist_plan.txt" LOG_FILE "earlier run"
           second_run_world
           (classify_file "/data/x/nist_plan.txt" second_run_world).1).
  - by left.
  - vm_compute. reflexivity.
  - vm_compute. reflexivity.
Defined.

(** ** Where the copies go *)

Section Destinations.

Implicit Types a b p : string.

Lemma endswith_char_app c a b :
  b ≠ "" → Str.endswith_char c (a +:+ b) = Str.endswith_char c b.
Proof.
  intros Hb. induction a as [|x a IH]; [done |].
  change (String x a +:+ b) with (String x (a +:+ b)).
  change (Str.endswith_char c (String x (a +:+ b)))
    with (match a +:+ b with
          | EmptyString => Ascii.eqb x c
          | _ => Str.endswith_char c (a +:+ b)
          end).
  destruct (a +:+ b) eqn:Hab; [| done].
  destruct a; [| done]. by destruct b.
Qed.

Lemma slash_free_endswith b :
  slash_free b = true → Str.endswith_char PosixPath.sep b = false.
Proof.
  induction b as [|c b IH]; [done |]. intros [Hc Hb]%slash_free_cons.
  simpl. destruct b; [done | by apply IH].
Qed.

Lemma join_plain a b :
  a ≠ "" → Str.endswith_char PosixPath.sep a = false →
  slash_free b = true →
  PosixPath.join a b = a +:+ "/" +:+ b.
Proof.
  intros Ha He Hb. unfold PosixPath.join.
  by rewrite (slash_free_startswith _ Hb), bool_decide_eq_false_2, He.
Qed.

Lemma dest_folder_plain framework :
  folder_name framework →
  dest_folder_of framework ≠ "" ∧
  Str.endswith_char PosixPath.sep (dest_folder_of framework) = false.
Proof.
  intros [Hfree Hne]. split; [done |]. unfold dest_folder_of.
  rewrite <- app_assoc', endswith_char_app by done.
  by apply slash_free_endswith.
Qed.

Lemma dest_path_shape framework file_path :
  folder_name framework →
  dest_path_of framework file_path
  = dest_folder_of framework +:+ "/" +:+ PosixPath.basename file_path.
Proof.
  intros [Hne He]%dest_folder_plain. unfold dest_path_of.
  by rewrite join_plain by (done || apply basename_slash_free).
Qed.

Lemma catalog_folder_names : Forall folder_name FRAMEWORKS.*1.
Proof. repeat constructor; done. Qed.

Lemma matched_folder_names file_path :
  Forall folder_name (matched_frameworks file_path).
Proof.
  assert (matched_frameworks file_path `sublist_of` FRAMEWORKS.*1) as Hsub.
  { rewrite matched_frameworks_hits. apply fmap_sublist, sublist_filter. }
  apply Forall_forall. intros fw Hfw.
  eapply (proj1 (Forall_forall _ _) catalog_folder_names).
  by eapply elem_of_sublist.
Qed.

(** A matched file has a name: not empty, not [.] and not [..]. *)
Lemma matched_name file_path :
  matched_frameworks file_path ≠ [] →
  PosixPath.basename file_path ≠ "" ∧
  PosixPath.basename file_path ≠ "." ∧
  PosixPath.basename file_path ≠ "..".
Proof.
  unfold matched_frameworks. intros Hm.
  repeat split; intros Heq; rewrite Heq in Hm; by apply Hm.
Qed.

Lemma cut_sep_slash_free a b :
  slash_free b = true →
  PosixPath.cut (a +:+ String PosixPath.sep b)
  = (a +:+ String PosixPath.sep "", b).
Proof.
  intros Hb. induction a as [|c a IH].
  - change ("" +:+ String PosixPath.sep b) with (String PosixPath.sep b).
    by rewrite cut_cons, (cut_slash_free _ Hb).
  - change (String c a +:+ String PosixPath.sep b)
      with (String c (a +:+ String PosixPath.sep b)).
    rewrite cut_cons, IH. simpl. by destruct a.
Qed.

End Destinations.

(** X14.  For every framework of the catalog and every input path, the
    copy goes to <framework folder>/<base name>: the name joined to the
    folder holds no slash, so the join can neither replace the folder by
    an absolute path nor descend below it, and the directory of the
    destination is the framework folder itself.  A file that matches a
    framework has a base name other than the empty name, [.] and [..]. *)
Theorem dest_path_in_framework_folder (framework file_path : string) :
  framework ∈ FRAMEWORKS.*1 →
  dest_path_of framework file_path
    = dest_folder_of framework +:+ "/" +:+ PosixPath.basename file_path ∧
  slash_free (PosixPath.basename file_path) = true ∧
  PosixPath.basename (dest_path_of framework file_path)
    = PosixPath.basename file_path ∧
  PosixPath.dirname (dest_path_of framework file_path)
    = dest_folder_of framework ∧
  (matched_frameworks file_path ≠ [] →
   PosixPath.basename file_path ≠ "" ∧
   PosixPath.basename file_path ≠ "." ∧
   PosixPath.basename file_path ≠ "..").
Proof.
  intros Hfw.
  assert (folder_name framework) as Hname
    by (by eapply (proj1 (Forall_forall _ _) catalog_folder_names)).
  pose proof (basename_slash_free file_path) as Hfree.
  split; [by apply dest_path_shape |]. split; [done |]. split.
  { unfold dest_path_of. by rewrite basename_join, basename_basename. }
  split; [| apply matched_name].
  rewrite dest_path_shape by done. unfold PosixPath.dirname.
  change (dest_folder_of framework +:+ "/" +:+ PosixPath.basename file_path)
    with (dest_folder_of framework
          +:+ String PosixPath.sep (PosixPath.basename file_path)).
  rewrite cut_sep_slash_free by done. simpl fst.
  repeat (apply elem_of_cons in Hfw as [-> | Hfw]; [by vm_compute |]).
  by apply elem_of_nil in Hfw.
Qed.

Lemma dest_path_in_framework_folder_witness :
  dest_path_of "NIST" "/data/in/nist_plan.txt"
    = dest_folder_of "NIST" +:+ "/" +:+ "nist_plan.txt".
Proof.
  apply (dest_path_in_framework_folder "NIST" "/data/in/nist_plan.txt").
  compute_done.
Defined.

(** ** The copies hold the text of the source *)

Section Copies.

Lemma abspath_absolute w k :
  Str.startswith "/" k = true → OS.abspath w k = k.
Proof. unfold OS.abspath, PosixPath.join. by intros ->. Qed.

Lemma startswith_app (c : ascii) a b :
  Str.startswith (String c "") a = true →
  Str.startswith (String c "") (a +:+ b) = true.
Proof. by destruct a. Qed.

Lemma dest_path_absolute framework file_path :
  folder_name framework →
  Str.startswith "/" (dest_path_of framework file_path) = true.
Proof. intros Hfw. by rewrite dest_path_shape. Qed.

Lemma inner_path_shape framework file_path :
  folder_name framework → PosixPath.basename file_path ≠ "" →
  inner_path_of framework file_path
  = dest_path_of framework file_path +:+ "/"
    +:+ PosixPath.basename file_path.
Proof.
  intros Hfw Hname. unfold inner_path_of.
  pose proof (basename_slash_free file_path) as Hfree.
  apply join_plain; [| | done].
  - rewrite dest_path_shape by done. by destruct (dest_folder_of framework).
  - rewrite dest_path_shape by done.
    rewrite <- app_assoc', endswith_char_app by done.
    by apply slash_free_endswith.
Qed.

Lemma inner_path_absolute framework file_path :
  folder_name framework → PosixPath.basename file_path ≠ "" →
  Str.startswith "/" (inner_path_of framework file_path) = true.
Proof.
  intros Hfw Hname. rewrite inner_path_shape by done.
  by apply startswith_app, dest_path_absolute.
Qed.

(** The two places a copy for a framework can go to. *)
Lemma target_basename framework file_path k :
  k = dest_path_of framework file_path ∨
  k = inner_path_of framework file_path →
  PosixPath.basename k = PosixPath.basename file_path.
Proof.
  intros [-> | ->]; unfold inner_path_of, dest_path_of;
    by rewrite ?basename_join, basename_basename.
Qed.

Lemma first_component_inj a b x y :
  slash_free a = true → slash_free b = true →
  a +:+ String PosixPath.sep x = b +:+ String PosixPath.sep y → a = b.
Proof.
  revert b. induction a as [|c a IH]; intros [|d b] Ha Hb H; simpl in *.
  - done.
  - injection H as <- _. by apply slash_free_cons in Hb as [? _].
  - injection H as -> _. by apply slash_free_cons in Ha as [? _].
  - injection H as -> H. apply slash_free_cons in Ha as [_ Ha].
    apply slash_free_cons in Hb as [_ Hb]. f_equal. by apply IH.
Qed.

(** The targets of two frameworks are apart. *)
Lemma targets_apart fw1 fw2 file_path k :
  folder_name fw1 → folder_name fw2 → PosixPath.basename file_path ≠ "" →
  k = dest_path_of fw1 file_path ∨ k = inner_path_of fw1 file_path →
  k = dest_path_of fw2 file_path ∨ k = inner_path_of fw2 file_path →
  fw1 = fw2.
Proof.
  intros H1 H2 Hname Hk1 Hk2.
  assert (∀ fw, folder_name fw →
            k = dest_path_of fw file_path ∨ k = inner_path_of fw file_path →
            ∃ rest, k = DEST_DIR +:+ "/" +:+ fw +:+ String PosixPath.sep rest)
    as Hshape.
  { intros fw Hfw [-> | ->].
    - exists (PosixPath.basename file_path).
      rewrite dest_path_shape by done. unfold dest_folder_of.
      by rewrite !app_assoc'.
    - exists (PosixPath.basename file_path +:+ "/"
              +:+ PosixPath.basename file_path).
      rewrite inner_path_shape, dest_path_shape by done.
      unfold dest_folder_of. by rewrite !app_assoc'. }
  destruct (Hshape _ H1 Hk1) as [r1 E1]. destruct (Hshape _ H2 Hk2) as [r2 E2].
  rewrite E1 in E2. apply (inj (String.app _)) in E2.
  apply (inj (String.app _)) in E2.
  eapply first_component_inj; [apply H1 | apply H2 | done].
Qed.

Lemma copy2_ok src dst w w' :
  OS.copy2 src dst w = (Ok tt, w') →
  ∃ data k,
    OS.lookup_path w src = Some (File data) ∧
    (k = OS.abspath w dst ∨
     k = OS.abspath w (PosixPath.join dst (PosixPath.basename src))) ∧
    fs w' !! k = Some (File data) ∧
    cwd w' = cwd w.
Proof.
  unfold OS.copy2. intros H.
  apply bind_inv in H as [([] & w1 & H1 & H) | (e & _ & ?)]; [| done].
  apply record_run in H1 as [_ ->].
  apply bind_inv in H as [(into & w2 & H2 & H) | (e & _ & ?)]; [| done].
  injection H2 as _ <-. revert H.
  change (OS.abspath (set_calls _ w)) with (OS.abspath w).
  assert (OS.abspath w (if into
             then PosixPath.join dst (PosixPath.basename src) else dst)
          = OS.abspath w dst ∨
          OS.abspath w (if into
             then PosixPath.join dst (PosixPath.basename src) else dst)
          = OS.abspath w (PosixPath.join dst (PosixPath.basename src)))
    as Hk by (destruct into; auto).
  generalize dependent (if into
    then PosixPath.join dst (PosixPath.basename src) else dst).
  intros dst' Hk. unfold OS.lookup_path.
  change (OS.node_at (set_calls (calls w ++ [CallCopy2 src dst]) w))
    with (OS.node_at w).
  case_bool_decide; [done |].
  destruct (OS.node_at w (OS.abspath w src)) as [[data|]|]; try done.
  assert (∀ w', OS.put (OS.abspath w dst') (File data)
                  (set_calls (calls w ++ [CallCopy2 src dst]) w) = (Ok tt, w') →
            ∃ data0 k, Some (File data) = Some (File data0) ∧
              (k = OS.abspath w dst ∨
               k = OS.abspath w (PosixPath.join dst (PosixPath.basename src))) ∧
              fs w' !! k = Some (File data0) ∧ cwd w' = cwd w) as Hput.
  { intros w0 [= <-]. exists data, (OS.abspath w dst').
    split; [done |]. split; [by destruct Hk as [-> | ->]; auto |].
    simpl. by rewrite lookup_insert_eq. }
  destruct (OS.node_at w (OS.abspath w dst')) as [[]|]; [apply Hput | done |].
  unfold bind, OS.parent_check.
  destruct (OS.node_at _ _) as [[]|]; try done. apply Hput.
Qed.

Lemma preserves_for_in {X} (I : World → Prop) (xs : list X)
    (body : X → M unit) :
  (∀ x, x ∈ xs → preserves I (body x)) → preserves I (for_ xs body).
Proof.
  induction xs as [|x xs IH]; intros Hbody; simpl.
  - by intros w r w' HI [= <- <-].
  - apply preserves_bind; [apply Hbody; by left |].
    intros _. apply IH. intros y Hy. apply Hbody. by right.
Qed.

(** A pass for a framework leaves alone every file that is neither one of
    its two targets nor a log. *)
Lemma holds_at_pass dir key data file_path framework :
  key ≠ PosixPath.join dir LOG_FILE →
  key ≠ PosixPath.join dir ROLLBACK_LOG →
  key ≠ PosixPath.join dir (dest_path_of framework file_path) →
  key ≠ PosixPath.join dir (inner_path_of framework file_path) →
  preserves (holds_at dir key data) (copy_to_framework file_path framework).
Proof.
  intros Hl1 Hl2 Hk1 Hk2. unfold copy_to_framework.
  apply preserves_bind.
  { intros w r w' [Hd Hf] H.
    apply ensure_dir_run in H as (new & _ & _ & Hd' & Hsub).
    split; [congruence | by eapply lookup_weaken]. }
  intros _. apply preserves_bind.
  { intros w r w' [Hd Hf] H. pose proof H as Hrun.
    apply copy2_run in Hrun as (_ & Hd' & _).
    split; [congruence |]. rewrite (copy2_frame _ _ _ _ _ H); [done | |];
      unfold OS.abspath; by rewrite Hd. }
  intros _. apply preserves_bind.
  { intros w r w' [Hd Hf] H.
    apply assign_joplin_tags_run in H as (new & _ & _ & Hd' & Hf').
    split; [congruence | by rewrite Hf']. }
  intros _. intros w r w' [Hd Hf] H.
  apply log_action_run in H as (Hd' & Hother & _).
  split; [congruence |]. rewrite Hother; [done | |];
    unfold OS.abspath; by rewrite Hd.
Qed.

Lemma keeps_file_pass dir file_path data framework :
  preserves (keeps_file dir (PosixPath.join dir file_path) data)
            (copy_to_framework file_path framework).
Proof.
  unfold copy_to_framework.
  apply preserves_bind; [apply keeps_file_ensure_dir |]. intros _.
  apply preserves_bind; [apply keeps_file_copy2 |]. intros _.
  apply preserves_bind.
  - apply keeps_file_notes, assign_joplin_tags_run.
  - intros _. apply keeps_file_log_action.
Qed.

End Copies.

Section CopiesOfOneFile.

Variables dir file_path data : string.

Hypothesis named : PosixPath.basename file_path ≠ "".
Hypothesis not_audit_log : PosixPath.basename file_path ≠ LOG_FILE.
Hypothesis not_rollback_log : PosixPath.basename file_path ≠ ROLLBACK_LOG.

Lemma join_absolute k :
  Str.startswith "/" k = true → PosixPath.join dir k = k.
Proof. unfold PosixPath.join. by intros ->. Qed.

(** A name that is not the name of a log is not the path of a log. *)
Lemma apart_from_logs k :
  PosixPath.basename k = PosixPath.basename file_path →
  k ≠ PosixPath.join dir LOG_FILE ∧ k ≠ PosixPath.join dir ROLLBACK_LOG.
Proof.
  intros Hk. split; intros ->; rewrite basename_join in Hk;
    [by apply not_audit_log | by apply not_rollback_log].
Qed.

Lemma target_absolute framework k :
  folder_name framework →
  k = dest_path_of framework file_path ∨
  k = inner_path_of framework file_path →
  PosixPath.join dir k = k.
Proof.
  intros Hfw [-> | ->]; apply join_absolute;
    [by apply dest_path_absolute | by apply inner_path_absolute].
Qed.

(** A pass that returns leaves the text of the source at one of the two
    targets of its framework. *)
Lemma pass_copies framework w w' :
  folder_name framework →
  cwd w = dir →
  PosixPath.join dir file_path ≠ "/" →
  fs w !! PosixPath.join dir file_path = Some (File data) →
  copy_to_framework file_path framework w = (Ok tt, w') →
  ∃ k, (k = dest_path_of framework file_path ∨
        k = inner_path_of framework file_path) ∧
       holds_at dir k data w'.
Proof.
  intros Hfw Hd Hroot Hsrc H. unfold copy_to_framework in H.
  apply bind_inv in H as [([] & w1 & H1 & H) | (e & _ & ?)]; [| done].
  apply bind_inv in H as [([] & w2 & H2 & H) | (e & _ & ?)]; [| done].
  apply bind_inv in H as [([] & w3 & H3 & H) | (e & _ & ?)]; [| done].
  apply ensure_dir_run in H1 as (_ & _ & _ & Hd1 & Hsub).
  apply copy2_ok in H2 as (data' & k & Hsrc1 & Hk & Hf2 & Hd2).
  apply assign_joplin_tags_run in H3 as (_ & _ & _ & Hd3 & Hf3).
  apply log_action_run in H as (Hd4 & Hother & _).
  assert (cwd w1 = dir) as Hd1' by congruence.
  assert (data' = data) as ->.
  { apply lookup_path_file in Hsrc1 as [_ Hsrc1]. unfold OS.abspath in Hsrc1.
    rewrite Hd1' in Hsrc1. eapply lookup_weaken in Hsrc; [| exact Hsub].
    congruence. }
  assert (k = dest_path_of framework file_path ∨
          k = inner_path_of framework file_path) as Hk'.
  { unfold OS.abspath in Hk. rewrite Hd1' in Hk.
    destruct Hk as [-> | ->]; [left | right].
    - apply (target_absolute framework); [done | by left].
    - apply (target_absolute framework); [done | by right]. }
  exists k. split; [done |]. split; [congruence |].
  destruct (apart_from_logs k) as [Hl1 Hl2];
    [by eapply target_basename |].
  rewrite Hother, Hf3; [done | |]; unfold OS.abspath;
    by replace (cwd w3) with dir by congruence.
Qed.

Lemma loop_copies : ∀ frameworks w w',
  Forall folder_name frameworks → NoDup frameworks →
  PosixPath.join dir file_path ≠ "/" →
  keeps_file dir (PosixPath.join dir file_path) data w →
  for_ frameworks (copy_to_framework file_path) w = (Ok tt, w') →
  ∀ framework, framework ∈ frameworks →
    ∃ k, (k = dest_path_of framework file_path ∨
          k = inner_path_of framework file_path) ∧
         holds_at dir k data w'.
Proof.
  induction frameworks as [|fw fws IH]; intros w w' Hnames Hnd Hroot Hkeep H;
    [by intros ? ?%elem_of_nil |].
  apply Forall_cons in Hnames as [Hfw Hnames].
  apply NoDup_cons in Hnd as [Hfresh Hnd].
  simpl in H.
  apply bind_inv in H as [([] & w1 & H1 & H) | (e & _ & ?)]; [| done].
  pose proof (keeps_file_pass _ _ _ _ _ _ _ Hkeep H1) as Hkeep1.
  intros framework [-> | Hin]%elem_of_cons; [| by eapply IH].
  destruct Hkeep as (Hd & _ & Hsame).
  destruct (apart_from_logs (PosixPath.join dir file_path)) as [Hl1 Hl2];
    [apply basename_join |].
  destruct (pass_copies fw w w1) as (k & Hk & Hholds); auto.
  exists k. split; [done |].
  eapply (preserves_for_in (holds_at dir k data)); [| exact Hholds | exact H].
  intros fw' Hfw'.
  destruct (apart_from_logs k) as [Hk1 Hk2]; [by eapply target_basename |].
  assert (folder_name fw') as Hname'
    by (by eapply (proj1 (Forall_forall _ _) Hnames)).
  apply holds_at_pass; [done | done | |]; intros Heq;
    (assert (fw = fw') as <-; [| done]).
  - assert (PosixPath.join dir (dest_path_of fw' file_path)
            = dest_path_of fw' file_path) as E
      by (apply (target_absolute fw'); [done | by left]).
    rewrite E in Heq.
    apply (targets_apart fw fw' file_path k); [done | done | done | done |].
    by left.
  - assert (PosixPath.join dir (inner_path_of fw' file_path)
            = inner_path_of fw' file_path) as E
      by (apply (target_absolute fw'); [done | by right]).
    rewrite E in Heq.
    apply (targets_apart fw fw' file_path k); [done | done | done | done |].
    by right.
Qed.

End CopiesOfOneFile.

Lemma matched_frameworks_nodup file_path :
  NoDup (matched_frameworks file_path).
Proof.
  eapply sublist_NoDup; [apply FRAMEWORKS_keys_distinct |].
  rewrite matched_frameworks_hits. apply fmap_sublist, sublist_filter.
Qed.

Lemma classify_file_copies (file_path data : string) w w' :
  OS.lookup_path w file_path = Some (File data) →
  classify_file file_path w = (Ok tt, w') →
  ∀ framework, framework ∈ matched_frameworks file_path →
    copy_at w' file_path framework data.
Proof.
  intros [Hroot Hsrc]%lookup_path_file H framework Hin.
  assert (matched_frameworks file_path ≠ []) as Hm
    by (intros Hnil; rewrite Hnil in Hin; by apply elem_of_nil in Hin).
  destruct (matched_name _ Hm) as (Hname & _).
  assert (PosixPath.basename file_path ≠ LOG_FILE) as Hlog
    by (intros Heq; by eapply (log_names_unmatched file_path LOG_FILE); auto).
  assert (PosixPath.basename file_path ≠ ROLLBACK_LOG) as Hrb
    by (intros Heq;
        by eapply (log_names_unmatched file_path ROLLBACK_LOG); auto).
  rewrite classify_file_matched in H by done.
  destruct (loop_copies (cwd w) file_path data Hname Hlog Hrb
              (matched_frameworks file_path) w w') with (framework := framework)
    as (k & Hk & Hd & Hf); auto.
  - apply matched_folder_names.
  - apply matched_frameworks_nodup.
  - split; [done |]. split; [| done]. exists "". by rewrite app_empty_r.
  - assert (folder_name framework) as Hfw
      by (by eapply (proj1 (Forall_forall _ _) (matched_folder_names file_path))).
    assert (OS.lookup_path w' k = Some (File data)) as Hlookup.
    { apply lookup_path_file. unfold OS.abspath.
      rewrite Hd, (target_absolute _ file_path Hname framework) by auto.
      split; [| done]. intros ->.
      apply (target_basename framework file_path) in Hk. by apply Hname. }
    destruct Hk as [-> | ->]; [by left | by right].
Qed.

(** X15.  A classification that returns has left, for every matched
    framework, a copy that holds exactly the text the source held: at the
    destination path, or, when a directory stood at that path, inside it
    under the file's name.  Later passes and the log writes do not touch
    the copies made before. *)
Theorem classify_file_copies_content (file_path data : string) w w' :
  OS.lookup_path w file_path = Some (File data) →
  classify_file file_path w = (Ok tt, w') →
  ∀ framework, framework ∈ matched_frameworks file_path →
    copy_at w' file_path framework data.
Proof. apply classify_file_copies. Qed.

Lemma classify_file_copies_content_witness :
  copy_at (classify_file "/data/nist_ffiec.txt" example_world).2
          "/data/nist_ffiec.txt" "NIST" "two frameworks".
Proof.
  apply (classify_file_copies_content "/data/nist_ffiec.txt" "two frameworks"
           example_world).
  - vm_compute. reflexivity.
  - vm_compute. reflexivity.
  - compute_done.
Defined.

(** ** From classification to rollback *)

Section ClassifyThenRollback.

Lemma lookup_path_same w w' p :
  cwd w' = cwd w → fs w' !! OS.abspath w p = fs w !! OS.abspath w p →
  OS.lookup_path w' p = OS.lookup_path w p.
Proof.
  intros Hd Hf. unfold OS.lookup_path, OS.node_at.
  rewrite (abspath_cwd w w') by done. by rewrite Hf.
Qed.

Lemma text_of_lookup w p text :
  OS.lookup_path w p = Some (File text) → text_of w p = text.
Proof. unfold text_of. by intros ->. Qed.

(** After a logging call that returns, the rollback log is a file. *)
Lemma log_action_rollback_log action src dest w w' text :
  OS.lookup_path w ROLLBACK_LOG = Some (File text) →
  log_action action src dest w = (Ok tt, w') →
  OS.lookup_path w' ROLLBACK_LOG
  = Some (File (text +:+ rollback_line src dest)).
Proof.
  intros Hrb H. pose proof (text_of_lookup _ _ _ Hrb) as Htext.
  apply lookup_path_file in Hrb as [Hroot Hfile].
  apply log_action_run in H as (Hd & _ & Hgrow & _ & _ & Hb).
  destruct (Hgrow _ _ Hfile) as [more Hmore].
  assert (OS.lookup_path w' ROLLBACK_LOG = Some (File (text +:+ more))) as H'.
  { apply lookup_path_file. by rewrite (abspath_cwd w w') by done. }
  apply text_of_lookup in H' as Htext'. rewrite H', <- Htext'.
  by rewrite Hb, Htext.
Qed.

Lemma pass_rollback_log file_path framework w w' text :
  PosixPath.basename file_path ≠ ROLLBACK_LOG →
  OS.lookup_path w ROLLBACK_LOG = Some (File text) →
  copy_to_framework file_path framework w = (Ok tt, w') →
  OS.lookup_path w' ROLLBACK_LOG
  = Some (File (text +:+ rollback_line file_path
                           (dest_path_of framework file_path))).
Proof.
  intros Hname Hrb H. unfold copy_to_framework in H.
  apply bind_inv in H as [([] & w1 & H1 & H) | (e & _ & ?)]; [| done].
  apply bind_inv in H as [([] & w2 & H2 & H) | (e & _ & ?)]; [| done].
  apply bind_inv in H as [([] & w3 & H3 & H) | (e & _ & ?)]; [| done].
  eapply log_action_rollback_log; [| exact H].
  apply lookup_path_file in Hrb as Hrb'. destruct Hrb' as [_ Hfile].
  apply ensure_dir_run in H1 as (_ & _ & _ & Hd1 & Hsub).
  pose proof H2 as H2'. apply copy2_run in H2' as (_ & Hd2 & _).
  apply assign_joplin_tags_run in H3 as (_ & _ & _ & Hd3 & Hf3).
  rewrite <- Hrb. apply lookup_path_same; [congruence |].
  rewrite Hf3, (copy2_frame _ _ _ _ _ H2).
  - pose proof (lookup_weaken _ _ _ _ Hfile Hsub) as Hfile1.
    by rewrite Hfile1, Hfile.
  - intros Heq. apply (f_equal PosixPath.basename) in Heq.
    rewrite !basename_abspath, basename_join, basename_basename in Heq.
    by apply Hname.
  - intros Heq. apply (f_equal PosixPath.basename) in Heq.
    rewrite !basename_abspath, !basename_join, basename_basename in Heq.
    by apply Hname.
Qed.

Lemma loop_rollback_log file_path :
  PosixPath.basename file_path ≠ ROLLBACK_LOG →
  ∀ frameworks w w' text,
    OS.lookup_path w ROLLBACK_LOG = Some (File text) →
    for_ frameworks (copy_to_framework file_path) w = (Ok tt, w') →
    OS.lookup_path w' ROLLBACK_LOG
    = Some (File (text +:+ rollback_text
        ((λ fw, ("COPY", file_path, dest_path_of fw file_path))
         <$> frameworks))).
Proof.
  intros Hname. induction frameworks as [|fw fws IH]; intros w w' text Hrb H.
  - injection H as <-. unfold rollback_text. simpl. by rewrite app_empty_r.
  - simpl in H.
    apply bind_inv in H as [([] & w1 & H1 & H) | (e & _ & ?)]; [| done].
    eapply pass_rollback_log in H1; [| done | exact Hrb].
    rewrite (IH _ _ _ H1 H).
    change (rollback_text ((λ fw0, ("COPY", file_path,
                                     dest_path_of fw0 file_path))
                           <$> fw :: fws))
      with ((inverse ("COPY", file_path, dest_path_of fw file_path) +:+ nl)
            +:+ rollback_text ((λ fw0, ("COPY", file_path,
                                         dest_path_of fw0 file_path))
                               <$> fws)).
    by rewrite (rollback_line_inverse "COPY"), !app_assoc'.
Qed.

(** What a classification that returns adds to the rollback log. *)
Lemma classify_file_rollback_log file_path w w' text :
  OS.lookup_path w ROLLBACK_LOG = Some (File text) →
  classify_file file_path w = (Ok tt, w') →
  OS.lookup_path w' ROLLBACK_LOG
  = Some (File (text +:+ rollback_text (audited file_path))).
Proof.
  intros Hrb H. unfold audited.
  destruct (matched_frameworks file_path) as [|fw fws] eqn:Hm.
  - rewrite classify_file_unmatched in H by done.
    apply bind_inv in H as [([] & w1 & H1 & H) | (e & _ & ?)]; [| done].
    apply assign_joplin_tags_run in H1 as (_ & _ & _ & Hd1 & Hf1).
    eapply log_action_rollback_log in H.
    2:{ rewrite <- Hrb. apply lookup_path_same; [done | by rewrite Hf1]. }
    rewrite H, (rollback_line_inverse "LEAVE"). unfold rollback_text. simpl.
    by rewrite app_empty_r.
  - rewrite classify_file_matched, Hm in H by (by rewrite Hm).
    eapply loop_rollback_log; [| done | done].
    intros Heq. eapply (log_names_unmatched file_path ROLLBACK_LOG);
      [by right | by rewrite Hm | done].
Qed.

Lemma linebreak_free_basename p :
  linebreak_free p = true → linebreak_free (PosixPath.basename p) = true.
Proof.
  intros H. rewrite <- (cut_app p), linebreak_free_app in H.
  by apply andb_true_iff in H as [_ ?].
Qed.

Lemma audited_plain file_path :
  linebreak_free file_path = true → Forall plain_entry (audited file_path).
Proof.
  intros Hp. unfold audited.
  pose proof (matched_folder_names file_path) as Hnames.
  assert (Forall (λ fw, linebreak_free fw = true)
                 (matched_frameworks file_path)) as Hfree.
  { assert (matched_frameworks file_path `sublist_of` FRAMEWORKS.*1) as Hsub.
    { rewrite matched_frameworks_hits. apply fmap_sublist, sublist_filter. }
    apply Forall_forall. intros fw Hfw.
    eapply elem_of_sublist in Hfw; [| exact Hsub]. revert fw Hfw.
    apply Forall_forall. by repeat constructor. }
  destruct (matched_frameworks file_path) as [|fw fws]; [by repeat constructor |].
  apply Forall_fmap, Forall_forall. intros fw' Hin.
  split; [done |].
  rewrite dest_path_shape
    by (by eapply (proj1 (Forall_forall _ _) Hnames)).
  unfold dest_folder_of. rewrite !linebreak_free_app.
  rewrite (proj1 (Forall_forall _ _) Hfree fw' Hin).
  by rewrite linebreak_free_basename.
Qed.

End ClassifyThenRollback.

(** X16.  Classification and rollback compose: after a classification that
    returns for a path without line break, started with an empty rollback
    log, [rollback] returns and hands to the shell exactly the inverse
    instructions of what was audited for the file, last first: for a
    matched file one [mv '<copy>' '<source>'] per matched framework, in
    reverse catalog order; for an unmatched file the single
    [mv '<path>' '<path>']. *)
Theorem classify_then_rollback (file_path : string) w w' :
  linebreak_free file_path = true →
  OS.lookup_path w ROLLBACK_LOG = Some (File "") →
  classify_file file_path w = (Ok tt, w') →
  ∃ w'',
    rollback w' = (Ok tt, w'') ∧
    calls w'' = calls w' ++
      (CallSystem <$> reverse (inverse <$> audited file_path)) ++
      [CallPrint "Rollback complete."].
Proof.
  intros Hp Hrb H.
  apply classify_file_rollback_log with (text := "") in H; [| done].
  simpl in H. apply rollback_with_log in H as (w'' & Hroll & Hc).
  exists w''. split; [done |].
  assert (Str.strip <$> reverse (OS.splitlines (OS.universal_newlines
            (rollback_text (audited file_path))))
          = reverse (inverse <$> audited file_path)) as E.
  { rewrite lines_of_rollback_text by (by apply audited_plain).
    rewrite fmap_reverse, <- list_fmap_compose.
    apply (f_equal reverse), list_fmap_ext.
    intros _ entry _. apply strip_inverse. }
  by rewrite Hc, E.
Qed.

Lemma classify_then_rollback_witness :
  ∃ w'',
    rollback (classify_file "/data/nist_ffiec.txt" logged_world).2
    = (Ok tt, w'') ∧
    calls w''
    = calls (classify_file "/data/nist_ffiec.txt" logged_world).2 ++
      (CallSystem <$> reverse (inverse <$> audited "/data/nist_ffiec.txt")) ++
      [CallPrint "Rollback complete."].
Proof.
  apply (classify_then_rollback "/data/nist_ffiec.txt" logged_world).
  - vm_compute. reflexivity.
  - vm_compute. reflexivity.
  - vm_compute. reflexivity.
Defined.

(** ** Classifying a file twice *)


